(** * vm-spinner: the bounded-parallelism orchestrator of [main.go]

    A shallow embedding of [main.go]: the default-value helpers, parameter
    validation, log initialisation, the naming of the VM instances, the worker
    event loop, and the goroutines of [runApp] (dispatcher, workers,
    aggregator) as an interleaving transition system over the semaphore, the
    two wait groups and the result channel. *)

From Stdlib Require Import ZArith List String Ascii Bool Lia Arith.
From Stdlib Require Import Decimal DecimalString DecimalZ.
Import ListNotations.

Local Open Scope string_scope.
Local Open Scope Z_scope.

(** ** Go's [int]

    [int] is the 64-bit two's-complement integer of the amd64 port.  Values
    are carried as [Z]; the arithmetic that can leave the range wraps. *)

Module GoInt.

Definition min_int : Z := - 2 ^ 63.
Definition max_int : Z := 2 ^ 63 - 1.

Definition in_range (z : Z) : Prop := min_int <= z <= max_int.

Definition wrap (z : Z) : Z := (z + 2 ^ 63) mod 2 ^ 64 - 2 ^ 63.

(** [a * b] on [int]. *)
Definition mul (a b : Z) : Z := wrap (a * b).

(** [a / b] on [int]: truncated towards zero; a zero divisor is the run-time
    panic "integer divide by zero", rendered as [None]. *)
Definition div (a b : Z) : option Z :=
  if b =? 0 then None else Some (wrap (a ÷ b)).

(** The verb [%d] of [fmt] applied to an [int]. *)
Definition fmt_d (z : Z) : string := NilZero.string_of_int (Z.to_int z).

End GoInt.

(** ** Default values of the command-line flags *)

Section Defaults.

(** [runtime.NumCPU()] of the host. *)
Variable NumCPU : Z.

Definition defaultMemory : Z := 1024.

Definition defaultParallelism : Z := GoInt.wrap (NumCPU ÷ 2).

Definition defaultNumCPUs : option Z := GoInt.div NumCPU defaultParallelism.

End Defaults.

(** ** The command line as [urfave/cli] presents it

    A flag set maps the names of the defined flags to their parsed values.
    [runApp] is the action of a sub-command, so its context has the flag set
    of the sub-command and, as parent, the flag set of the application. *)

Inductive FlagValue :=
| VString (s : string)
| VInt (n : Z)
| VBool (b : bool).

Definition FlagSet := list (string * FlagValue).

Fixpoint Lookup (fs : FlagSet) (name : string) : option FlagValue :=
  match fs with
  | [] => None
  | (k, v) :: fs' => if String.eqb k name then Some v else Lookup fs' name
  end.

Record Context := {
  flagSet : FlagSet;        (* flags of the sub-command *)
  parentFlagSet : FlagSet   (* global flags, declared by [app.Flags] *)
}.

(** The [Global*] getters search the parent context; a name that no flag
    declares yields the zero value of the type. *)
Definition GlobalString (c : Context) (name : string) : string :=
  match Lookup (parentFlagSet c) name with
  | Some (VString s) => s
  | _ => ""
  end.

Definition GlobalInt (c : Context) (name : string) : Z :=
  match Lookup (parentFlagSet c) name with
  | Some (VInt n) => n
  | _ => 0
  end.

Definition GlobalBool (c : Context) (name : string) : bool :=
  match Lookup (parentFlagSet c) name with
  | Some (VBool b) => b
  | _ => false
  end.

(** [c.Int] searches the flag set of the sub-command only. *)
Definition Int (c : Context) (name : string) : Z :=
  match Lookup (flagSet c) name with
  | Some (VInt n) => n
  | _ => 0
  end.

(** The values of the global options after parsing. *)
Record Options := {
  opt_images : string;
  opt_provider : string;
  opt_memory : Z;
  opt_cpus : Z;
  opt_parallelism : Z;
  opt_log_json : bool;
  opt_log_level : string;
  opt_log_output : string
}.

(** The flag set built from [app.Flags] in [main]; a flag declared as
    ["images,i"] answers to both names. *)
Definition app_flags (o : Options) : FlagSet :=
  [ ("images", VString (opt_images o)); ("i", VString (opt_images o));
    ("provider", VString (opt_provider o)); ("p", VString (opt_provider o));
    ("memory", VInt (opt_memory o));
    ("cpus", VInt (opt_cpus o));
    ("parallelism", VInt (opt_parallelism o));
    ("log.json", VBool (opt_log_json o));
    ("log.level", VString (opt_log_level o));
    ("log.output", VString (opt_log_output o)) ].

Definition app_context (o : Options) (sub : FlagSet) : Context :=
  {| flagSet := sub; parentFlagSet := app_flags o |}.

(** ** Effects of the sequential prefix of [runApp] *)

Inductive Formatter := TextFormatter | JSONFormatter.

Inductive Level := ErrorLevel | InfoLevel | DebugLevel | TraceLevel.

Inductive Output := Stderr | Stdout | OutFile (path : string).

(** The process-wide configuration of the [logrus] standard logger. *)
Record Logger := {
  formatter : Formatter;
  output : Output;
  level : Level
}.

Definition SetFormatter (f : Formatter) (lg : Logger) : Logger :=
  {| formatter := f; output := output lg; level := level lg |}.
Definition SetOutput (o : Output) (lg : Logger) : Logger :=
  {| formatter := formatter lg; output := o; level := level lg |}.
Definition SetLevel (l : Level) (lg : Logger) : Logger :=
  {| formatter := formatter lg; output := output lg; level := l |}.

(** Calls that leave the process, in program order. *)
Inductive Call :=
| CPrintf (msg : string)
| COpenFile (path : string)
| CNewVMJob.

Section Startup.

Variable NumCPU : Z.

(** [os.OpenFile(path, O_RDWR|O_CREATE, 0644)]: [None] when the file was
    opened, otherwise the error. *)
Variable OpenFile : string -> option string.

Definition validateParameters (c : Context) : list Call * option string :=
  if NumCPU <? GlobalInt c "cpus" then
    ([], Some ("number of CPUs for each VM (" ++ GoInt.fmt_d (Int c "cpus")
               ++ ") exceeds the number of CPUs available ("
               ++ GoInt.fmt_d NumCPU ++ ")"))
  else if NumCPU <? GlobalInt c "parallelism" then
    ([], Some ("number of parallel VMs (" ++ GoInt.fmt_d (Int c "parallelism")
               ++ ") exceeds the number of CPUs available ("
               ++ GoInt.fmt_d NumCPU ++ ")"))
  else if NumCPU <? GoInt.mul (GlobalInt c "parallelism") (GlobalInt c "cpus") then
    ([CPrintf ("warning: number of parallel cpus (cpus * parallelism "
               ++ GoInt.fmt_d (GoInt.mul (Int c "parallelism") (Int c "cpus"))
               ++ ") exceeds the number of CPUs available ("
               ++ GoInt.fmt_d NumCPU ++ ")" ++ String "010" "")],
     None)
  else ([], None).

Definition initLog (c : Context) (lg : Logger)
  : list Call * Logger * option string :=
  let lg1 := if GlobalBool c "log.json" then SetFormatter JSONFormatter lg else lg in
  let finish (out : Output) (calls : list Call) :=
    let lg2 := SetOutput out lg1 in
    let lvl := GlobalString c "log.level" in
    (calls,
     if String.eqb lvl "trace" then SetLevel TraceLevel lg2
     else if String.eqb lvl "debug" then SetLevel DebugLevel lg2
     else if String.eqb lvl "info" then SetLevel InfoLevel lg2
     else SetLevel DebugLevel lg2,
     None) in
  if (0 <? String.length (GlobalString c "log.output"))%nat then
    let path := GlobalString c "log-output" in
    match OpenFile path with
    | Some err => ([COpenFile path], lg1, Some err)
    | None => finish (OutFile path) [COpenFile path]
    end
  else finish Stdout [].

End Startup.

(** ** Data of the orchestrator *)

(** Modelled from the spec: the struct [VMConfig] is declared in a file of
    package [main] other than main.go; the fields are those of the composite
    literal in [runApp]. *)
Record VMConfig := {
  Name : string;
  BoxName : string;
  ProviderName : string;
  CPUs : Z;
  Memory : Z;
  Command : string
}.

(** Modelled from the spec: [vmjobs.VMOutput], a VM identifier paired with one
    line of command output. *)
Record VMOutput := {
  VM : string;
  Line : string
}.

(** Modelled from the spec: what [RunVirtualMachine] hands back is a struct of
    five receive-only channels; a value received from one of them is an event
    tagged with its channel.  An error is carried as its [Error()] text (the
    errors sent are not nil). *)
Inductive Event :=
| EvDone
| EvCmdOutput (l : string)
| EvDebug (l : string)
| EvInfo (l : string)
| EvError (err : string).

(** Modelled from the spec: what the orchestrator asks of a [vmjobs] job
    before dispatch; [Process] and [Done] are calls recorded in the trace. *)
Record VMJob := {
  Images : list string;
  Cmd : string
}.

(** [fmt.Sprintf("/tmp/%s-%d", image, i)] *)
Definition vm_name (image : string) (i : Z) : string :=
  "/tmp/" ++ image ++ "-" ++ GoInt.fmt_d i.

(** The configuration built in iteration [i] of the dispatch loop. *)
Definition mkConf (c : Context) (job : VMJob) (i : nat) (image : string) : VMConfig :=
  {| Name := vm_name image (Z.of_nat i);
     BoxName := image;
     ProviderName := GlobalString c "provider";
     CPUs := GlobalInt c "cpus";
     Memory := GlobalInt c "memory";
     Command := Cmd job |}.

(** The configurations of a whole dispatch, [for i, image := range images]. *)
Fixpoint range_confs (c : Context) (job : VMJob) (i : nat) (images : list string)
  : list VMConfig :=
  match images with
  | [] => []
  | image :: rest => mkConf c job i image :: range_confs c job (S i) rest
  end.

(** ** The worker's event loop *)

(** One line written through [log.WithFields(log.Fields{"vm": ...})]. *)
Record LogEntry := {
  log_level : Level;
  log_vm : string;
  log_msg : string
}.

Inductive Control := Continue | Return.

(** One pass through the [select] of the worker for the event received: the
    line logged, the record sent on [resCh] if any, and whether the loop goes
    on. *)
Definition worker_select (conf : VMConfig) (e : Event)
  : LogEntry * option VMOutput * Control :=
  let logger := fun lvl msg => {| log_level := lvl; log_vm := BoxName conf; log_msg := msg |} in
  match e with
  | EvDone => (logger InfoLevel "Job Finished.", None, Return)
  | EvCmdOutput l =>
      (logger InfoLevel l, Some {| VM := BoxName conf; Line := l |}, Continue)
  | EvDebug l => (logger TraceLevel l, None, Continue)
  | EvInfo l => (logger DebugLevel l, None, Continue)
  | EvError err => (logger ErrorLevel err, None, Continue)
  end.

(** What a worker does, in order, while it runs. *)
Inductive Action :=
| ARunVM (conf : VMConfig)
| ALog (entry : LogEntry)
| ASend (o : VMOutput)
| ARelease
| AWgDone.

Definition select_actions (r : LogEntry * option VMOutput * Control) : list Action :=
  match r with
  | (entry, Some o, _) => [ALog entry; ASend o]
  | (entry, None, _) => [ALog entry]
  end.

(** The [for { select ... }] loop fed with the events in the order the
    [select] receives them.  The boolean tells whether the loop returned;
    [false] means the worker waits in [select] for a further event. *)
Fixpoint worker_loop (conf : VMConfig) (evs : list Event) : list Action * bool :=
  match evs with
  | [] => ([], false)
  | e :: evs' =>
      let r := worker_select conf e in
      match snd r with
      | Return => (select_actions r, true)
      | Continue =>
          let (acts, returned) := worker_loop conf evs' in
          ((select_actions r ++ acts)%list, returned)
      end
  end.

(** The body of the worker goroutine: the deferred function runs when the
    loop returns. *)
Definition worker (conf : VMConfig) (evs : list Event) : list Action * bool :=
  let (acts, returned) := worker_loop conf evs in
  ((ARunVM conf :: acts ++ (if returned then [ARelease; AWgDone] else []))%list,
   returned).

(** ** Synchronisation primitives *)

(** [golang.org/x/sync/semaphore]: a weighted semaphore with a FIFO queue of
    blocked acquirers. *)
Module Semaphore.

Record Weighted := {
  size : Z;
  cur : Z;
  waiters : list Z   (* weights asked for by the blocked callers, oldest first *)
}.

Definition NewWeighted (n : Z) : Weighted :=
  {| size := n; cur := 0; waiters := [] |}.

(** Outcome of [Acquire(context.Background(), n)] at the moment of the call:
    the units are taken at once, the caller joins the queue, or (when [n]
    exceeds the size) it waits for the cancellation of a context that is
    never cancelled. *)
Inductive Acquired :=
| Granted (s : Weighted)
| Queued (s : Weighted)
| Doomed.

Definition Acquire (s : Weighted) (n : Z) : Acquired :=
  if (n <=? size s - cur s) && (match waiters s with [] => true | _ => false end)
  then Granted {| size := size s; cur := cur s + n; waiters := waiters s |}
  else if size s <? n then Doomed
  else Queued {| size := size s; cur := cur s; waiters := (waiters s ++ [n])%list |}.

(** The queue is served from the front while the front fits; the result is
    the new count, the callers left in the queue and how many were woken. *)
Fixpoint notifyWaiters (sz c : Z) (ws : list Z) : Z * list Z * nat :=
  match ws with
  | [] => (c, [], O)
  | w :: ws' =>
      if sz - c <? w then (c, ws, O)
      else let '(c', rest, k) := notifyWaiters sz (c + w) ws' in (c', rest, S k)
  end.

(** [Release(n)]; [None] is the panic "semaphore: released more than held". *)
Definition Release (s : Weighted) (n : Z) : option (Weighted * nat) :=
  let c := cur s - n in
  if c <? 0 then None
  else let '(c', rest, k) := notifyWaiters (size s) c (waiters s) in
       Some ({| size := size s; cur := c'; waiters := rest |}, k).

End Semaphore.

(** ** The goroutines of [runApp] *)

(** Replace the element at index [i]. *)
Fixpoint upd {A : Type} (i : nat) (f : A -> A) (l : list A) : list A :=
  match l, i with
  | [], _ => []
  | x :: l', O => f x :: l'
  | x :: l', S i' => x :: upd i' f l'
  end.

(** Where the main goroutine stands. *)
Inductive OrchPC :=
| ORange (i : nat) (rest : list string)
    (* at the head of [for i, image := range images]; with [rest] empty the
       loop is over and the goroutine is at [wg.Wait()] *)
| OAcquire (i : nat) (image : string) (rest : list string)
    (* [wg.Add(1)] done, about to call [sm.Acquire] *)
| OQueued (i : nat) (image : string) (rest : list string)
    (* inside [sm.Acquire], in the queue of the semaphore *)
| ODoomed (i : nat) (image : string) (rest : list string)
    (* inside [sm.Acquire], waiting on a context that is never cancelled *)
| OGo (i : nat) (image : string) (rest : list string)
    (* token held, about to build [conf] and start the worker *)
| OClose       (* [wg.Wait()] returned, about to [close(resCh)] *)
| OResWait     (* at [resWg.Wait()] *)
| OJobDone     (* about to call [job.Done()] *)
| OReturned.   (* [job.Done()] called, [runApp] returned nil *)

(** Where a worker goroutine stands. *)
Inductive WorkerPC :=
| WRunVM                 (* the deferred function is registered, about to call [RunVirtualMachine] *)
| WSelect                (* in [select] *)
| WSend (o : VMOutput)   (* at [resCh <- o] *)
| WRelease               (* in the deferred function, about to [sm.Release(1)] *)
| WWgDone                (* about to [wg.Done()] *)
| WExited.

Record Worker := {
  conf : VMConfig;
  wpc : WorkerPC
}.

(** Where the goroutine reading [resCh] stands. *)
Inductive AggPC :=
| ARange                     (* at [for res := range resCh] *)
| AProcess (res : VMOutput)  (* about to call [job.Process(res)] *)
| AResWgDone                 (* loop over, about to [resWg.Done()] *)
| AExited.

Record State := {
  orch : OrchPC;
  sm : Semaphore.Weighted;
  wg : Z;                  (* counter of [wg] *)
  resWg : Z;               (* counter of [resWg] *)
  closed : bool;           (* [resCh] is closed *)
  agg : AggPC;
  workers : list Worker;   (* in the order they were started *)
  panicked : bool          (* a goroutine panicked: the process is gone *)
}.

(** One atomic step of one goroutine.  [resCh] is unbuffered, so a send and
    the matching receive are one step. *)
Inductive Label :=
| LWgAdd                          (* main: [wg.Add(1)] *)
| LAcquire                        (* main: call of [sm.Acquire] *)
| LGo                             (* main: [go func() {...}()] *)
| LWgWait                         (* main: [wg.Wait()] returns *)
| LClose                          (* main: [close(resCh)] *)
| LResWgWait                      (* main: [resWg.Wait()] returns *)
| LJobDone                        (* main: [job.Done()] *)
| LRunVM (i : nat)                (* worker i: [RunVirtualMachine(conf)] *)
| LRecv (i : nat) (e : Event)     (* worker i: [select] receives [e] and logs *)
| LSend (i : nat) (o : VMOutput)  (* worker i: [resCh <- o] meets the receive *)
| LRelease (i : nat)              (* worker i: [sm.Release(1)] *)
| LWgDone (i : nat)               (* worker i: [wg.Done()] *)
| LProcess (o : VMOutput)         (* aggregator: [job.Process(o)] *)
| LRangeEnd                       (* aggregator: the range over the closed channel ends *)
| LResWgDone.                     (* aggregator: [resWg.Done()] *)

Definition VMOutput_eqb (a b : VMOutput) : bool :=
  String.eqb (VM a) (VM b) && String.eqb (Line a) (Line b).

Definition set_orch (o : OrchPC) (s : State) : State :=
  {| orch := o; sm := sm s; wg := wg s; resWg := resWg s; closed := closed s;
     agg := agg s; workers := workers s; panicked := panicked s |}.
Definition set_sm (x : Semaphore.Weighted) (s : State) : State :=
  {| orch := orch s; sm := x; wg := wg s; resWg := resWg s; closed := closed s;
     agg := agg s; workers := workers s; panicked := panicked s |}.
Definition set_wg (x : Z) (s : State) : State :=
  {| orch := orch s; sm := sm s; wg := x; resWg := resWg s; closed := closed s;
     agg := agg s; workers := workers s; panicked := panicked s |}.
Definition set_resWg (x : Z) (s : State) : State :=
  {| orch := orch s; sm := sm s; wg := wg s; resWg := x; closed := closed s;
     agg := agg s; workers := workers s; panicked := panicked s |}.
Definition set_closed (s : State) : State :=
  {| orch := orch s; sm := sm s; wg := wg s; resWg := resWg s; closed := true;
     agg := agg s; workers := workers s; panicked := panicked s |}.
Definition set_agg (x : AggPC) (s : State) : State :=
  {| orch := orch s; sm := sm s; wg := wg s; resWg := resWg s; closed := closed s;
     agg := x; workers := workers s; panicked := panicked s |}.
Definition set_workers (x : list Worker) (s : State) : State :=
  {| orch := orch s; sm := sm s; wg := wg s; resWg := resWg s; closed := closed s;
     agg := agg s; workers := x; panicked := panicked s |}.
Definition panic (s : State) : State :=
  {| orch := orch s; sm := sm s; wg := wg s; resWg := resWg s; closed := closed s;
     agg := agg s; workers := workers s; panicked := true |}.

Definition set_wpc (i : nat) (pc : WorkerPC) (s : State) : State :=
  set_workers (upd i (fun w => {| conf := conf w; wpc := pc |}) (workers s)) s.

(** Where the worker goes after one pass through the [select]. *)
Definition after_select (r : LogEntry * option VMOutput * Control) : WorkerPC :=
  match r with
  | (_, Some o, _) => WSend o
  | (_, None, Continue) => WSelect
  | (_, None, Return) => WRelease
  end.

(** The caller woken by a release is the main goroutine: nothing else calls
    [sm.Acquire]. *)
Definition wake (k : nat) (o : OrchPC) : OrchPC :=
  match k, o with
  | S _, OQueued i image rest => OGo i image rest
  | _, _ => o
  end.

Section RunApp.

Variable c : Context.
Variable job : VMJob.

(** The state after [runApp] has started the aggregator, created [wg] and
    [sm] and fetched [job.Images()]. *)
Definition init : State :=
  {| orch := ORange 0 (Images job);
     sm := Semaphore.NewWeighted (GlobalInt c "parallelism");
     wg := 0;
     resWg := 1;
     closed := false;
     agg := ARange;
     workers := [];
     panicked := false |}.

(** [step s l] is the state after goroutine step [l], or [None] when [l] is
    not the next step of its goroutine or the goroutine is blocked. *)
Definition step (s : State) (l : Label) : option State :=
  if panicked s then None else
  match l with
  | LWgAdd =>
      match orch s with
      | ORange i (image :: rest) =>
          Some (set_orch (OAcquire i image rest) (set_wg (wg s + 1) s))
      | _ => None
      end
  | LAcquire =>
      match orch s with
      | OAcquire i image rest =>
          match Semaphore.Acquire (sm s) 1 with
          | Semaphore.Granted sm' => Some (set_orch (OGo i image rest) (set_sm sm' s))
          | Semaphore.Queued sm' => Some (set_orch (OQueued i image rest) (set_sm sm' s))
          | Semaphore.Doomed => Some (set_orch (ODoomed i image rest) s)
          end
      | _ => None
      end
  | LGo =>
      match orch s with
      | OGo i image rest =>
          Some (set_orch (ORange (S i) rest)
                  (set_workers
                     (workers s ++ [{| conf := mkConf c job i image; wpc := WRunVM |}])%list s))
      | _ => None
      end
  | LWgWait =>
      match orch s with
      | ORange _ [] => if wg s =? 0 then Some (set_orch OClose s) else None
      | _ => None
      end
  | LClose =>
      match orch s with
      | OClose =>
          if closed s then Some (panic s)
          else Some (set_orch OResWait (set_closed s))
      | _ => None
      end
  | LResWgWait =>
      match orch s with
      | OResWait => if resWg s =? 0 then Some (set_orch OJobDone s) else None
      | _ => None
      end
  | LJobDone =>
      match orch s with
      | OJobDone => Some (set_orch OReturned s)
      | _ => None
      end
  | LRunVM i =>
      match nth_error (workers s) i with
      | Some {| conf := _; wpc := WRunVM |} => Some (set_wpc i WSelect s)
      | _ => None
      end
  | LRecv i e =>
      match nth_error (workers s) i with
      | Some {| conf := cf; wpc := WSelect |} =>
          Some (set_wpc i (after_select (worker_select cf e)) s)
      | _ => None
      end
  | LSend i o =>
      match nth_error (workers s) i with
      | Some {| conf := _; wpc := WSend o' |} =>
          if negb (VMOutput_eqb o' o) then None
          else if closed s then Some (panic s)
          else match agg s with
               | ARange => Some (set_agg (AProcess o) (set_wpc i WSelect s))
               | _ => None
               end
      | _ => None
      end
  | LRelease i =>
      match nth_error (workers s) i with
      | Some {| conf := _; wpc := WRelease |} =>
          match Semaphore.Release (sm s) 1 with
          | None => Some (panic s)
          | Some (sm', k) =>
              Some (set_orch (wake k (orch s)) (set_sm sm' (set_wpc i WWgDone s)))
          end
      | _ => None
      end
  | LWgDone i =>
      match nth_error (workers s) i with
      | Some {| conf := _; wpc := WWgDone |} =>
          if wg s - 1 <? 0 then Some (panic s)
          else Some (set_wg (wg s - 1) (set_wpc i WExited s))
      | _ => None
      end
  | LProcess o =>
      match agg s with
      | AProcess o' => if VMOutput_eqb o' o then Some (set_agg ARange s) else None
      | _ => None
      end
  | LRangeEnd =>
      match agg s with
      | ARange => if closed s then Some (set_agg AResWgDone s) else None
      | _ => None
      end
  | LResWgDone =>
      match agg s with
      | AResWgDone =>
          if resWg s - 1 <? 0 then Some (panic s)
          else Some (set_agg AExited (set_resWg (resWg s - 1) s))
      | _ => None
      end
  end.

(** Run a schedule, oldest step first. *)
Fixpoint exec (s : State) (t : list Label) : option State :=
  match t with
  | [] => Some s
  | l :: t' =>
      match step s l with
      | Some s' => exec s' t'
      | None => None
      end
  end.

(** [s] is the state of [runApp] after the steps [t]. *)
Definition reachable (t : list Label) (s : State) : Prop :=
  exec init t = Some s.

End RunApp.

(** ** [runApp] up to the start of the goroutines *)

(** How the sequential prefix of [runApp] ends. *)
Inductive Startup :=
| Rejected (err : string)                 (* [return err] *)
| Fatal (err : string)                    (* [log.Fatal(err)] *)
| Dispatching (lg : Logger) (job : VMJob). (* goes on to start the goroutines from [init] *)

Section RunAppStartup.

Variable NumCPU : Z.
Variable OpenFile : string -> option string.

(** Modelled from the spec: [vmjobs.NewVMJob] selects the job from the
    sub-command; it yields a job or an error. *)
Variable NewVMJob : Context -> VMJob + string.

Definition runApp (c : Context) (lg : Logger) : list Call * Startup :=
  let (calls1, err) := validateParameters NumCPU c in
  match err with
  | Some e => (calls1, Rejected e)
  | None =>
      let '(calls2, lg', err) := initLog OpenFile c lg in
      match err with
      | Some e => ((calls1 ++ calls2)%list, Rejected e)
      | None =>
          match NewVMJob c with
          | inr e => ((calls1 ++ calls2 ++ [CNewVMJob])%list, Fatal e)
          | inl job => ((calls1 ++ calls2 ++ [CNewVMJob])%list, Dispatching lg' job)
          end
      end
  end.

End RunAppStartup.


(** ** Observations on states and schedules *)

(** The worker has been started and has not yet executed [sm.Release(1)]. *)
Definition holds_token (w : Worker) : bool :=
  match wpc w with
  | WWgDone | WExited => false
  | _ => true
  end.

(** The worker has not yet executed [wg.Done()]. *)
Definition live (w : Worker) : bool :=
  match wpc w with
  | WExited => false
  | _ => true
  end.

Definition count (p : Worker -> bool) (ws : list Worker) : Z :=
  Z.of_nat (List.length (filter p ws)).

(** The main goroutine has a token it has not yet handed to a worker. *)
Definition token_in_hand (o : OrchPC) : Z :=
  match o with
  | OGo _ _ _ => 1
  | _ => 0
  end.

(** The main goroutine is inside an iteration of the dispatch loop. *)
Definition in_iteration (o : OrchPC) : Z :=
  match o with
  | OAcquire _ _ _ | OQueued _ _ _ | ODoomed _ _ _ | OGo _ _ _ => 1
  | _ => 0
  end.

(** The main goroutine has not yet passed [wg.Wait()]. *)
Definition dispatching (o : OrchPC) : bool :=
  match o with
  | OClose | OResWait | OJobDone | OReturned => false
  | _ => true
  end.

(** Images still to be dispatched, the one in progress first. *)
Definition pending (o : OrchPC) : list string :=
  match o with
  | ORange _ rest => rest
  | OAcquire _ image rest | OQueued _ image rest
  | ODoomed _ image rest | OGo _ image rest => image :: rest
  | _ => []
  end.

Definition loop_index (o : OrchPC) : option nat :=
  match o with
  | ORange i _ | OAcquire i _ _ | OQueued i _ _ | ODoomed i _ _ | OGo i _ _ => Some i
  | _ => None
  end.

Definition is_release (i : nat) (l : Label) : bool :=
  match l with LRelease j => Nat.eqb i j | _ => false end.

Definition is_wg_done (i : nat) (l : Label) : bool :=
  match l with LWgDone j => Nat.eqb i j | _ => false end.

Definition is_job_done (l : Label) : bool :=
  match l with LJobDone => true | _ => false end.

Definition is_wg_wait (l : Label) : bool :=
  match l with LWgWait => true | _ => false end.

Definition is_res_wg_done (l : Label) : bool :=
  match l with LResWgDone => true | _ => false end.

(** Steps of the dispatch loop and of the workers. *)
Definition is_dispatch_or_worker (l : Label) : bool :=
  match l with
  | LWgAdd | LAcquire | LGo
  | LRunVM _ | LRecv _ _ | LSend _ _ | LRelease _ | LWgDone _ => true
  | _ => false
  end.

(** Steps of the aggregator's loop. *)
Definition is_agg_loop (l : Label) : bool :=
  match l with
  | LSend _ _ | LProcess _ | LRangeEnd => true
  | _ => false
  end.

(** The steps that sequence the shutdown. *)
Definition is_milestone (l : Label) : bool :=
  match l with
  | LWgWait | LClose | LResWgDone | LResWgWait | LJobDone => true
  | _ => false
  end.

(** How often worker [i] released a token, resp. called [wg.Done()]. *)
Definition releases (i : nat) (t : list Label) : nat :=
  List.length (filter (is_release i) t).

Definition wg_dones (i : nat) (t : list Label) : nat :=
  List.length (filter (is_wg_done i) t).

(** How often [job.Done()] was called. *)
Definition job_done_calls (t : list Label) : nat :=
  List.length (filter is_job_done t).

(** The records sent on [resCh], resp. passed to [job.Process], in order. *)
Definition sent (t : list Label) : list VMOutput :=
  flat_map (fun l => match l with LSend _ o => [o] | _ => [] end) t.

Definition processed (t : list Label) : list VMOutput :=
  flat_map (fun l => match l with LProcess o => [o] | _ => [] end) t.

Definition milestones (t : list Label) : list Label := filter is_milestone t.

(** No step satisfying [noisy] comes after the first step satisfying [mark]. *)
Fixpoint quiet_after (mark noisy : Label -> bool) (t : list Label) : bool :=
  match t with
  | [] => true
  | l :: t' =>
      if mark l then forallb (fun x => negb (noisy x)) t'
      else quiet_after mark noisy t'
  end.

(** The milestones passed so far, as the positions of the goroutines tell. *)
Definition milestones_of (o : OrchPC) (a : AggPC) : list Label :=
  match o with
  | OClose => [LWgWait]
  | OResWait =>
      match a with
      | AExited => [LWgWait; LClose; LResWgDone]
      | _ => [LWgWait; LClose]
      end
  | OJobDone => [LWgWait; LClose; LResWgDone; LResWgWait]
  | OReturned => [LWgWait; LClose; LResWgDone; LResWgWait; LJobDone]
  | _ => []
  end.

(** ** The invariant of [runApp] *)

Section Invariant.

Variable c : Context.
Variable job : VMJob.

(** What holds of every reachable state. *)
Record Inv (s : State) : Prop := {
  inv_panicked : panicked s = false;
  inv_size : Semaphore.size (sm s) = GlobalInt c "parallelism";
  inv_cur :
    Semaphore.cur (sm s) = count holds_token (workers s) + token_in_hand (orch s);
  inv_waiters :
    Semaphore.waiters (sm s)
    = match orch s with OQueued _ _ _ => [1] | _ => [] end;
  inv_queued :
    match orch s with
    | OQueued _ _ _ =>
        1 <= Semaphore.size (sm s) /\ Semaphore.size (sm s) <= Semaphore.cur (sm s)
    | _ => True
    end;
  inv_bound :
    Semaphore.cur (sm s) = 0 \/ Semaphore.cur (sm s) <= Semaphore.size (sm s);
  inv_wg : wg s = count live (workers s) + in_iteration (orch s);
  inv_confs :
    (map conf (workers s)
       ++ range_confs c job (List.length (workers s)) (pending (orch s)))%list
    = range_confs c job 0 (Images job);
  inv_index :
    match loop_index (orch s) with
    | Some i => i = List.length (workers s)
    | None => True
    end;
  inv_joined : dispatching (orch s) = false -> count live (workers s) = 0;
  inv_closed : closed s = match orch s with
                          | OResWait | OJobDone | OReturned => true
                          | _ => false
                          end;
  inv_resWg : resWg s = match agg s with AExited => 0 | _ => 1 end;
  inv_agg_closed :
    match agg s with AResWgDone | AExited => closed s = true | _ => True end;
  inv_drained :
    match orch s with OJobDone | OReturned => agg s = AExited | _ => True end
}.

(** What relates a reachable state to the schedule that led to it. *)
Record TInv (t : list Label) (s : State) : Prop := {
  tinv_releases :
    forall i, releases i t
              = match nth_error (workers s) i with
                | Some w => if holds_token w then O else 1%nat
                | None => O
                end;
  tinv_wg_dones :
    forall i, wg_dones i t
              = match nth_error (workers s) i with
                | Some w => if live w then O else 1%nat
                | None => O
                end;
  tinv_job_done :
    job_done_calls t = match orch s with OReturned => 1%nat | _ => O end;
  tinv_sent :
    sent t = (processed t
                ++ match agg s with AProcess o => [o] | _ => [] end)%list;
  tinv_milestones : milestones t = milestones_of (orch s) (agg s);
  tinv_joined : existsb is_wg_wait t = negb (dispatching (orch s));
  tinv_agg_exited :
    existsb is_res_wg_done t = match agg s with AExited => true | _ => false end;
  tinv_workers_quiet : quiet_after is_wg_wait is_dispatch_or_worker t = true;
  tinv_agg_quiet : quiet_after is_res_wg_done is_agg_loop t = true
}.

End Invariant.

(** ** A schedule that runs the workers one after the other *)

(** Iteration [i] of the dispatch loop followed by the whole life of worker
    [i], whose session reports [EvDone] at once. *)
Definition serial_one (i : nat) : list Label :=
  [LWgAdd; LAcquire; LGo; LRunVM i; LRecv i EvDone; LRelease i; LWgDone i].

Fixpoint serial (i n : nat) : list Label :=
  match n with
  | O => []
  | S n' => (serial_one i ++ serial (S i) n')%list
  end.

(** The steps of [runApp] after the dispatch loop. *)
Definition shutdown : list Label :=
  [LWgWait; LClose; LRangeEnd; LResWgDone; LResWgWait; LJobDone].

(** The state between two iterations when no worker is running. *)
Definition idle (P : Z) (ws : list Worker) (i : nat) (rest : list string) : State :=
  {| orch := ORange i rest;
     sm := {| Semaphore.size := P; Semaphore.cur := 0; Semaphore.waiters := [] |};
     wg := 0;
     resWg := 1;
     closed := false;
     agg := ARange;
     workers := ws;
     panicked := false |}.

(** [ARelease] steps among the actions of a worker. *)
Definition release_actions (acts : list Action) : nat :=
  List.length (filter (fun a => match a with ARelease => true | _ => false end) acts).

(** Steps of the main goroutine. *)
Definition is_main (l : Label) : bool :=
  match l with
  | LWgAdd | LAcquire | LGo | LWgWait | LClose | LResWgWait | LJobDone => true
  | _ => false
  end.

(** ** Sample configurations *)

Definition sample_context (parallelism : Z) (log_output : string) : Context :=
  app_context
    {| opt_images := "ubuntu,fedora,ubuntu"; opt_provider := "virtualbox";
       opt_memory := 1024; opt_cpus := 2; opt_parallelism := parallelism;
       opt_log_json := false; opt_log_level := "debug";
       opt_log_output := log_output |} [].

Definition sample_job : VMJob :=
  {| Images := ["ubuntu"; "fedora"; "ubuntu"]; Cmd := "uname -r" |}.

Definition sample_logger : Logger :=
  {| formatter := TextFormatter; output := Stderr; level := InfoLevel |}.

(** A file system in which the empty path cannot be opened. *)
Definition sample_fs (path : string) : option string :=
  if String.eqb path "" then Some "open : no such file or directory" else None.

(** Two workers admitted, the third image waiting for a token. *)
Definition sample_contended : list Label :=
  [LWgAdd; LAcquire; LGo; LWgAdd; LAcquire; LGo; LWgAdd; LAcquire; LRunVM 0].

(** A complete run: worker 0 forwards a line, reports two errors and
    finishes; its release wakes the dispatch loop. *)
Definition sample_run : list Label :=
  (sample_contended
   ++ [LRecv 0 (EvCmdOutput "5.4.0"); LSend 0 {| VM := "ubuntu"; Line := "5.4.0" |};
       LRecv 0 (EvError "ssh: timeout"); LRecv 0 (EvError "ssh: retry");
       LProcess {| VM := "ubuntu"; Line := "5.4.0" |};
       LRecv 0 EvDone; LRelease 0; LGo; LWgDone 0;
       LRunVM 1; LRunVM 2; LRecv 2 (EvInfo "booting"); LRecv 1 EvDone;
       LRecv 2 EvDone; LRelease 2; LRelease 1; LWgDone 2; LWgDone 1]
   ++ shutdown)%list.

(** The states the sample schedules lead to. *)
Definition sample_contended_state : State :=
  Eval vm_compute in
    match exec (sample_context 2 "") sample_job
            (init (sample_context 2 "") sample_job) sample_contended with
    | Some s => s
    | None => init (sample_context 2 "") sample_job
    end.

Definition sample_final_state : State :=
  Eval vm_compute in
    match exec (sample_context 2 "") sample_job
            (init (sample_context 2 "") sample_job) sample_run with
    | Some s => s
    | None => init (sample_context 2 "") sample_job
    end.

(** Worker 0 has received [EvDone] and stands at its release while the main
    goroutine is queued for the third image. *)
Definition sample_releasing : list Label :=
  (sample_contended ++ [LRecv 0 EvDone])%list.

Definition sample_releasing_state : State :=
  Eval vm_compute in
    match exec (sample_context 2 "") sample_job
            (init (sample_context 2 "") sample_job) sample_releasing with
    | Some s => s
    | None => init (sample_context 2 "") sample_job
    end.

(** Worker 0 has received a line of command output and stands at the send. *)
Definition sample_sending : list Label :=
  (sample_contended ++ [LRecv 0 (EvCmdOutput "5.4.0")])%list.

Definition sample_sending_state : State :=
  Eval vm_compute in
    match exec (sample_context 2 "") sample_job
            (init (sample_context 2 "") sample_job) sample_sending with
    | Some s => s
    | None => init (sample_context 2 "") sample_job
    end.

(** ** A run seen from one worker *)

(** The events worker [i] received, in order. *)
Definition worker_events (i : nat) (t : list Label) : list Event :=
  flat_map (fun l => match l with
                     | LRecv j e => if Nat.eqb i j then [e] else []
                     | _ => []
                     end) t.

(** What worker [i], configured with [cf], did, in order. *)
Definition worker_actions (i : nat) (cf : VMConfig) (t : list Label) : list Action :=
  flat_map (fun l => match l with
                     | LRunVM j => if Nat.eqb i j then [ARunVM cf] else []
                     | LRecv j e =>
                         if Nat.eqb i j
                         then [ALog (fst (fst (worker_select cf e)))] else []
                     | LSend j o => if Nat.eqb i j then [ASend o] else []
                     | LRelease j => if Nat.eqb i j then [ARelease] else []
                     | LWgDone j => if Nat.eqb i j then [AWgDone] else []
                     | _ => []
                     end) t.

(** How the actions [acts] of a worker standing at [pc] relate to the loop
    run on the events [evs] it received. *)
Definition worker_view (cf : VMConfig) (pc : WorkerPC) (evs : list Event)
  (acts : list Action) : Prop :=
  match pc with
  | WRunVM => acts = [] /\ evs = []
  | WSelect =>
      acts = ARunVM cf :: fst (worker_loop cf evs) /\
      snd (worker_loop cf evs) = false
  | WSend o =>
      (acts ++ [ASend o])%list = ARunVM cf :: fst (worker_loop cf evs) /\
      snd (worker_loop cf evs) = false
  | WRelease =>
      acts = ARunVM cf :: fst (worker_loop cf evs) /\
      snd (worker_loop cf evs) = true
  | WWgDone =>
      acts = (ARunVM cf :: fst (worker_loop cf evs) ++ [ARelease])%list /\
      snd (worker_loop cf evs) = true
  | WExited =>
      acts = fst (worker cf evs) /\ snd (worker cf evs) = true
  end.

(** Every worker of a run is, so far, a run of [worker] on the events it
    received. *)
Definition WInv (t : list Label) (s : State) : Prop :=
  forall i,
    match nth_error (workers s) i with
    | Some w =>
        worker_view (conf w) (wpc w) (worker_events i t)
          (worker_actions i (conf w) t)
    | None =>
        worker_events i t = [] /\ forall cf, worker_actions i cf t = []
    end.

(** The loop of the worker has returned. *)
Definition loop_returned (w : Worker) : bool :=
  match wpc w with
  | WRelease | WWgDone | WExited => true
  | _ => false
  end.

(** ** The application built in [main] *)

(** A sub-command of [app.Commands]: its name and the names of its flags,
    all of them string flags; the action of each is [runApp]. *)
Record SubCommand := {
  cmd_name : string;
  cmd_flags : list string
}.

Definition commands : list SubCommand :=
  [ {| cmd_name := "bpf"; cmd_flags := ["commithash"] |};
    {| cmd_name := "kmod"; cmd_flags := ["commithash"] |};
    {| cmd_name := "cmd"; cmd_flags := ["line"] |};
    {| cmd_name := "stdin"; cmd_flags := [] |};
    {| cmd_name := "script"; cmd_flags := ["file"] |} ].

(** The flag set of a sub-command after parsing, [value] giving what each of
    its flags was set to. *)
Definition command_flags (cmd : SubCommand) (value : string -> string) : FlagSet :=
  map (fun name => (name, VString (value name))) (cmd_flags cmd).

(** The context [runApp] is called with. *)
Definition command_context (o : Options) (cmd : SubCommand) (value : string -> string)
  : Context :=
  app_context o (command_flags cmd value).

(** The values of [app.Flags] when no global option is given; building the
    flags calls [defaultMemory], [defaultNumCPUs] and [defaultParallelism],
    and [None] is the panic of [defaultNumCPUs]. *)
Definition default_options (NumCPU : Z) : option Options :=
  match defaultNumCPUs NumCPU with
  | None => None
  | Some cpus =>
      Some {| opt_images := "";
              opt_provider := "virtualbox";
              opt_memory := defaultMemory;
              opt_cpus := cpus;
              opt_parallelism := defaultParallelism NumCPU;
              opt_log_json := false;
              opt_log_level := "debug";
              opt_log_output := "" |}
  end.

(** ** Records of command output *)

(** The records worker [i] sent on [resCh], in order. *)
Definition sent_by (i : nat) (t : list Label) : list VMOutput :=
  flat_map (fun l => match l with
                     | LSend j o => if Nat.eqb i j then [o] else []
                     | _ => []
                     end) t.

(** The records due for the events of a session: one for each line of
    command output that comes before the first [EvDone]. *)
Fixpoint cmd_outputs (cf : VMConfig) (evs : list Event) : list VMOutput :=
  match evs with
  | [] => []
  | EvDone :: _ => []
  | EvCmdOutput l :: evs' => {| VM := BoxName cf; Line := l |} :: cmd_outputs cf evs'
  | _ :: evs' => cmd_outputs cf evs'
  end.

(** The record a worker is about to send. *)
Definition in_flight (pc : WorkerPC) : list VMOutput :=
  match pc with
  | WSend o => [o]
  | _ => []
  end.

(** The records among the actions of a worker. *)
Definition sends (acts : list Action) : list VMOutput :=
  flat_map (fun a => match a with ASend o => [o] | _ => [] end) acts.

(** ** A schedule that starts workers without letting them run *)

(** One iteration of the dispatch loop. *)
Definition start_one : list Label := [LWgAdd; LAcquire; LGo].

Fixpoint start_many (k : nat) : list Label :=
  match k with
  | O => []
  | S k' => (start_one ++ start_many k')%list
  end.

(** The state at the head of the loop when every worker started so far still
    holds its token and none has called [wg.Done()]. *)
Definition started (P : Z) (ws : list Worker) (rest : list string) : State :=
  {| orch := ORange (List.length ws) rest;
     sm := {| Semaphore.size := P;
              Semaphore.cur := Z.of_nat (List.length ws);
              Semaphore.waiters := [] |};
     wg := Z.of_nat (List.length ws);
     resWg := 1;
     closed := false;
     agg := ARange;
     workers := ws;
     panicked := false |}.

(** ** How far a state is from the return of [runApp] *)

(** Steps a worker has before it, counting a receive of [EvDone] as the next
    event of a worker waiting in [select]. *)
Definition worker_fuel (w : Worker) : nat :=
  match wpc w with
  | WRunVM => 5
  | WSelect => 4
  | WSend _ => 6
  | WRelease => 2
  | WWgDone => 1
  | WExited => 0
  end.

Definition agg_fuel (a : AggPC) : nat :=
  match a with
  | ARange => 3
  | AProcess _ => 4
  | AResWgDone => 1
  | AExited => 0
  end.

Definition orch_fuel (o : OrchPC) : nat :=
  match o with
  | ORange _ rest => 10 * List.length rest + 8
  | OAcquire _ _ rest => 10 * List.length rest + 17
  | OQueued _ _ rest => 10 * List.length rest + 16
  | ODoomed _ _ rest => 10 * List.length rest + 16
  | OGo _ _ rest => 10 * List.length rest + 15
  | OClose => 3
  | OResWait => 2
  | OJobDone => 1
  | OReturned => 0
  end.

Definition fuel (s : State) : nat :=
  orch_fuel (orch s) + agg_fuel (agg s) + list_sum (map worker_fuel (workers s)).

(** The step is not the receipt of an event other than [EvDone]. *)
Definition advances (l : Label) : bool :=
  match l with
  | LRecv _ EvDone => true
  | LRecv _ _ => false
  | _ => true
  end.

(** Global options for the samples, with the given per-VM CPU count and
    parallelism. *)
Definition sample_options (cpus parallelism : Z) : Options :=
  {| opt_images := "ubuntu,fedora,ubuntu"; opt_provider := "virtualbox";
     opt_memory := 1024; opt_cpus := cpus; opt_parallelism := parallelism;
     opt_log_json := false; opt_log_level := "debug"; opt_log_output := "" |}.
(** * Properties *)

(** ** The definitions on sample inputs *)

Example fmt_d_samples :
  (GoInt.fmt_d 0, GoInt.fmt_d 12, GoInt.fmt_d (-5)) = ("0", "12", "-5").
Proof. reflexivity. Qed.

Example range_confs_names :
  map Name (range_confs (sample_context 2 "") sample_job 0 (Images sample_job))
  = ["/tmp/ubuntu-0"; "/tmp/fedora-1"; "/tmp/ubuntu-2"].
Proof. reflexivity. Qed.

Example defaults_on_eight_cpus :
  (defaultParallelism 8, defaultNumCPUs 8) = (4, Some 2).
Proof. reflexivity. Qed.

Example worker_sample :
  worker (mkConf (sample_context 2 "") sample_job 1 "fedora")
    [EvCmdOutput "5.11"; EvError "ssh: timeout"; EvInfo "booting"; EvDone;
     EvCmdOutput "late"]
  = ([ARunVM (mkConf (sample_context 2 "") sample_job 1 "fedora");
      ALog {| log_level := InfoLevel; log_vm := "fedora"; log_msg := "5.11" |};
      ASend {| VM := "fedora"; Line := "5.11" |};
      ALog {| log_level := ErrorLevel; log_vm := "fedora"; log_msg := "ssh: timeout" |};
      ALog {| log_level := DebugLevel; log_vm := "fedora"; log_msg := "booting" |};
      ALog {| log_level := InfoLevel; log_vm := "fedora"; log_msg := "Job Finished." |};
      ARelease; AWgDone],
     true).
Proof. reflexivity. Qed.

(** With two tokens and three images the third admission waits in the queue
    of the semaphore. *)
Example contended_dispatch_waits :
  orch sample_contended_state = OQueued 2 "ubuntu" [] /\
  Semaphore.cur (sm sample_contended_state) = 2 /\
  step (sample_context 2 "") sample_job sample_contended_state LGo = None.
Proof. repeat split. Qed.

Example sample_run_returns :
  orch sample_final_state = OReturned /\
  map wpc (workers sample_final_state) = [WExited; WExited; WExited] /\
  sent sample_run = [{| VM := "ubuntu"; Line := "5.4.0" |}].
Proof. repeat split. Qed.

(** ** Arithmetic of [int] *)

Lemma wrap_in_range z : GoInt.in_range z -> GoInt.wrap z = z.
Proof.
  unfold GoInt.in_range, GoInt.min_int, GoInt.max_int, GoInt.wrap. intros H.
  rewrite Z.mod_small; lia.
Qed.

Lemma wrap_range z : GoInt.in_range (GoInt.wrap z).
Proof.
  unfold GoInt.in_range, GoInt.min_int, GoInt.max_int, GoInt.wrap.
  pose proof (Z.mod_pos_bound (z + 2 ^ 63) (2 ^ 64) ltac:(lia)). lia.
Qed.

Lemma mul_small a b :
  - 2 ^ 31 <= a <= 2 ^ 31 -> - 2 ^ 31 <= b <= 2 ^ 31 -> GoInt.mul a b = a * b.
Proof.
  intros Ha Hb. unfold GoInt.mul. apply wrap_in_range.
  unfold GoInt.in_range, GoInt.min_int, GoInt.max_int. nia.
Qed.

(** ** Default values *)

(** C8: on a host with [n >= 1] CPUs [defaultParallelism] is [n / 2], and
    [defaultNumCPUs] divides [n] by it: the division panics (divisor zero)
    exactly when the host has one CPU, and yields [n / (n / 2)] on every host
    with at least two. *)
Theorem defaultNumCPUs_total_iff_two_cpus (n : Z) :
  1 <= n <= GoInt.max_int ->
  defaultParallelism n = n / 2 /\
  (defaultParallelism n = 0 <-> n = 1) /\
  (defaultNumCPUs n = None <-> n = 1) /\
  (2 <= n -> defaultNumCPUs n = Some (n / (n / 2))).
Proof.
  intros Hn.
  assert (Hq : n ÷ 2 = n / 2) by (apply Z.quot_div_nonneg; lia).
  assert (Hhalf : 0 <= n / 2 <= n).
  { split; [apply Z.div_pos; lia | apply Z.div_le_upper_bound; lia]. }
  assert (Hp : defaultParallelism n = n / 2).
  { unfold defaultParallelism. rewrite Hq. apply wrap_in_range.
    unfold GoInt.in_range, GoInt.min_int, GoInt.max_int in *. lia. }
  assert (Hz : n / 2 = 0 <-> n = 1).
  { split; intros H.
    - apply Z.div_small_iff in H; lia.
    - subst n. reflexivity. }
  split; [exact Hp|]. split; [rewrite Hp; exact Hz|]. split.
  - unfold defaultNumCPUs, GoInt.div. rewrite Hp.
    destruct (Z.eqb_spec (n / 2) 0) as [E|E].
    + split; [intros _; apply Hz, E | reflexivity].
    + split; [discriminate | intros H1; exfalso; apply E, Hz, H1].
  - intros H2. unfold defaultNumCPUs, GoInt.div. rewrite Hp.
    destruct (Z.eqb_spec (n / 2) 0) as [E|E].
    + apply Hz in E. lia.
    + f_equal. rewrite Z.quot_div_nonneg by lia.
      apply wrap_in_range.
      assert (0 <= n / (n / 2) <= n).
      { split; [apply Z.div_pos; lia | apply Z.div_le_upper_bound; nia]. }
      unfold GoInt.in_range, GoInt.min_int, GoInt.max_int in *. lia.
Qed.

Lemma defaultNumCPUs_total_iff_two_cpus_witness :
  defaultParallelism 1 = 0 /\ defaultNumCPUs 1 = None /\ defaultNumCPUs 8 = Some 2.
Proof.
  split; [|split].
  - apply (proj1 (proj2 (defaultNumCPUs_total_iff_two_cpus 1 ltac:(unfold GoInt.max_int; lia)))).
    reflexivity.
  - apply (proj1 (proj2 (proj2 (defaultNumCPUs_total_iff_two_cpus 1 ltac:(unfold GoInt.max_int; lia))))).
    reflexivity.
  - apply (proj2 (proj2 (proj2 (defaultNumCPUs_total_iff_two_cpus 8 ltac:(unfold GoInt.max_int; lia))))).
    lia.
Defined.

(** ** Parameter validation *)

Lemma validateParameters_cases (n : Z) (c : Context) :
  (n < GlobalInt c "cpus" /\
   exists e, validateParameters n c = ([], Some e)) \/
  (GlobalInt c "cpus" <= n /\ n < GlobalInt c "parallelism" /\
   exists e, validateParameters n c = ([], Some e)) \/
  (GlobalInt c "cpus" <= n /\ GlobalInt c "parallelism" <= n /\
   n < GoInt.mul (GlobalInt c "parallelism") (GlobalInt c "cpus") /\
   exists msg, validateParameters n c = ([CPrintf msg], None)) \/
  (GlobalInt c "cpus" <= n /\ GlobalInt c "parallelism" <= n /\
   GoInt.mul (GlobalInt c "parallelism") (GlobalInt c "cpus") <= n /\
   validateParameters n c = ([], None)).
Proof.
  unfold validateParameters.
  destruct (Z.ltb_spec n (GlobalInt c "cpus")) as [H1|H1].
  { left. split; [exact H1 | eexists; reflexivity]. }
  destruct (Z.ltb_spec n (GlobalInt c "parallelism")) as [H2|H2].
  { right; left. repeat split; try assumption. eexists; reflexivity. }
  destruct (Z.ltb_spec n (GoInt.mul (GlobalInt c "parallelism") (GlobalInt c "cpus")))
    as [H3|H3].
  { right; right; left. repeat split; try assumption. eexists; reflexivity. }
  right; right; right. repeat split; assumption.
Qed.

(** C6: on a host with [n] CPUs [validateParameters] returns an error exactly
    when the per-VM CPU count exceeds [n] or the parallelism exceeds [n]; in
    that case [runApp] returns the error at once, having printed nothing and
    built no job.  Otherwise it returns nil, and prints the warning exactly
    when [parallelism * cpus] (the product on [int], which is the
    mathematical product for operands below 2^31 in magnitude) exceeds [n]. *)
Theorem validateParameters_rejects_iff
  (n : Z) (OpenFile : string -> option string)
  (NewVMJob : Context -> VMJob + string) (c : Context) (lg : Logger) :
  ((exists e, snd (validateParameters n c) = Some e) <->
   (GlobalInt c "cpus" > n \/ GlobalInt c "parallelism" > n)) /\
  (forall e, snd (validateParameters n c) = Some e ->
     fst (validateParameters n c) = [] /\
     runApp n OpenFile NewVMJob c lg = ([], Rejected e)) /\
  (GlobalInt c "cpus" <= n -> GlobalInt c "parallelism" <= n ->
     snd (validateParameters n c) = None /\
     (GoInt.mul (GlobalInt c "parallelism") (GlobalInt c "cpus") > n ->
        exists msg, fst (validateParameters n c) = [CPrintf msg]) /\
     (GoInt.mul (GlobalInt c "parallelism") (GlobalInt c "cpus") <= n ->
        fst (validateParameters n c) = [])) /\
  (- 2 ^ 31 <= GlobalInt c "parallelism" <= 2 ^ 31 ->
   - 2 ^ 31 <= GlobalInt c "cpus" <= 2 ^ 31 ->
   GoInt.mul (GlobalInt c "parallelism") (GlobalInt c "cpus")
   = GlobalInt c "parallelism" * GlobalInt c "cpus").
Proof.
  pose proof (validateParameters_cases n c) as Hc.
  split; [|split; [|split]].
  - split.
    + intros [e He].
      destruct Hc as [(H & _)|[(_ & H & _)|[(_ & _ & _ & (m & E))|(_ & _ & _ & E)]]];
        try lia; rewrite E in He; discriminate.
    + intros H.
      destruct Hc as [(_ & (e & E))|[(_ & _ & (e & E))|[(? & ? & _)|(? & ? & _)]]];
        try lia; exists e; rewrite E; reflexivity.
  - intros e He. unfold runApp.
    destruct Hc as [(_ & (e' & E))|[(_ & _ & (e' & E))|[(_ & _ & _ & (m & E))|(_ & _ & _ & E)]]];
      rewrite E in *; simpl in He; try discriminate;
      injection He as <-; split; reflexivity.
  - intros H1 H2.
    destruct Hc as [(H & _)|[(_ & H & _)|[(_ & _ & H & (m & E))|(_ & _ & H & E)]]];
      try lia; rewrite E; simpl.
    + split; [reflexivity|]. split; [intros _; exists m; reflexivity | lia].
    + split; [reflexivity|]. split; [lia | reflexivity].
  - intros Hp Hc'. apply mul_small; assumption.
Qed.

Lemma validateParameters_rejects_iff_witness :
  snd (validateParameters 4 (sample_context 3 "")) = None /\
  (exists msg, fst (validateParameters 4 (sample_context 3 "")) = [CPrintf msg]).
Proof.
  pose proof (validateParameters_rejects_iff 4 sample_fs (fun _ => inl sample_job)
                (sample_context 3 "") sample_logger)
    as (_ & _ & H & _).
  destruct (H ltac:(vm_compute; discriminate) ltac:(vm_compute; discriminate))
    as (H1 & H2 & _).
  split; [exact H1 | apply H2; reflexivity].
Defined.

(** ** Log initialisation *)

Lemma GlobalString_log_output (o : Options) (sub : FlagSet) :
  GlobalString (app_context o sub) "log.output" = opt_log_output o.
Proof. reflexivity. Qed.

Lemma GlobalString_log_dash_output (o : Options) (sub : FlagSet) :
  GlobalString (app_context o sub) "log-output" = "".
Proof. reflexivity. Qed.

(** C9: with [log.output] set to a non-empty file name, [initLog] reads the
    key ["log-output"], which no flag declares and which therefore is the
    empty string, and opens that; the logger is never pointed at the file the
    user named.  When opening the empty path fails, [initLog] returns the
    error with the output of the logger untouched, and [runApp] returns an
    error without having called [NewVMJob]. *)
Theorem initLog_opens_undeclared_key
  (n : Z) (OpenFile : string -> option string)
  (NewVMJob : Context -> VMJob + string)
  (o : Options) (sub : FlagSet) (lg : Logger) :
  opt_log_output o <> "" ->
  GlobalString (app_context o sub) "log-output" = "" /\
  fst (fst (initLog OpenFile (app_context o sub) lg)) = [COpenFile ""] /\
  (output lg <> OutFile (opt_log_output o) ->
   output (snd (fst (initLog OpenFile (app_context o sub) lg)))
     <> OutFile (opt_log_output o)) /\
  (forall err, OpenFile "" = Some err ->
     snd (initLog OpenFile (app_context o sub) lg) = Some err /\
     output (snd (fst (initLog OpenFile (app_context o sub) lg))) = output lg /\
     exists calls e,
       runApp n OpenFile NewVMJob (app_context o sub) lg = (calls, Rejected e) /\
       ~ In CNewVMJob calls).
Proof.
  intros Hne.
  assert (Hlen : (0 <? String.length (opt_log_output o))%nat = true).
  { destruct (opt_log_output o); [congruence | reflexivity]. }
  assert (Hlg1 : output (if GlobalBool (app_context o sub) "log.json"
                         then SetFormatter JSONFormatter lg else lg) = output lg).
  { destruct (GlobalBool (app_context o sub) "log.json"); reflexivity. }
  split; [reflexivity|].
  unfold runApp, initLog.
  rewrite GlobalString_log_output, GlobalString_log_dash_output, Hlen.
  destruct (OpenFile "") as [err|] eqn:Hopen; cbn [fst snd].
  - split; [reflexivity|]. split.
    + rewrite Hlg1. auto.
    + intros err' H. injection H as <-.
      split; [reflexivity|]. split; [exact Hlg1|].
      destruct (validateParameters_cases n (app_context o sub))
        as [(_ & (e & E))|[(_ & _ & (e & E))|[(_ & _ & _ & (m & E))|(_ & _ & _ & E)]]];
        rewrite E.
      * exists [], e. split; [reflexivity | simpl; tauto].
      * exists [], e. split; [reflexivity | simpl; tauto].
      * exists [CPrintf m; COpenFile ""], err. split; [reflexivity|].
        simpl. intros [H|[H|[]]]; discriminate.
      * exists [COpenFile ""], err. split; [reflexivity|].
        simpl. intros [H|[]]; discriminate.
  - split; [reflexivity|]. split.
    + intros _.
      repeat match goal with
             | |- context [String.eqb ?a ?b] => destruct (String.eqb a b)
             end;
        simpl; intros H; injection H as H; apply Hne; symmetry; exact H.
    + intros err H. discriminate.
Qed.

Lemma initLog_opens_undeclared_key_witness :
  snd (initLog sample_fs (sample_context 2 "run.log") sample_logger)
  = Some "open : no such file or directory" /\
  output (snd (fst (initLog sample_fs (sample_context 2 "run.log") sample_logger)))
  = Stderr.
Proof.
  pose proof (initLog_opens_undeclared_key 4 sample_fs (fun _ => inl sample_job)
                _ [] sample_logger
                (ltac:(discriminate) : opt_log_output
                   {| opt_images := "ubuntu,fedora,ubuntu";
                      opt_provider := "virtualbox";
                      opt_memory := 1024; opt_cpus := 2; opt_parallelism := 2;
                      opt_log_json := false; opt_log_level := "debug";
                      opt_log_output := "run.log" |} <> ""))
    as (_ & _ & _ & H).
  destruct (H "open : no such file or directory" eq_refl) as (H1 & H2 & _).
  split; [exact H1 | exact H2].
Defined.

(** ** Instance names: the rendering of the index *)

Lemma to_int_not_nil (z : Z) : Z.to_int z <> Pos Nil /\ Z.to_int z <> Neg Nil.
Proof.
  destruct z as [|p|p]; simpl; split; try discriminate;
    intros H; injection H as H; exact (DecimalPos.Unsigned.to_uint_nonnil p H).
Qed.

Lemma fmt_d_inj (a b : Z) : GoInt.fmt_d a = GoInt.fmt_d b -> a = b.
Proof.
  unfold GoInt.fmt_d. intros H.
  destruct (to_int_not_nil a) as [Ha1 Ha2], (to_int_not_nil b) as [Hb1 Hb2].
  pose proof (NilZero.isi _ Ha1 Ha2) as Ia.
  pose proof (NilZero.isi _ Hb1 Hb2) as Ib.
  rewrite H in Ia. rewrite Ia in Ib. injection Ib as Ib.
  apply DecimalZ.to_int_inj. exact Ib.
Qed.

Lemma digits_no_dash (u : uint) (s1 s2 : string) :
  NilEmpty.string_of_uint u <> s1 ++ String "-" s2.
Proof.
  revert s1. induction u; intros [|ch s1] H; simpl in H; try discriminate;
    injection H as _ H; exact (IHu _ H).
Qed.

Lemma fmt_d_no_dash (i : nat) (s1 s2 : string) :
  GoInt.fmt_d (Z.of_nat i) <> s1 ++ String "-" s2.
Proof.
  unfold GoInt.fmt_d.
  destruct (Z.of_nat i) as [|p|p] eqn:E; try lia; simpl.
  - destruct s1 as [|ch [|ch' s1]]; simpl; discriminate.
  - pose proof (DecimalPos.Unsigned.to_uint_nonnil p) as Hn.
    unfold NilZero.string_of_uint.
    destruct (Pos.to_uint p) eqn:Eu; try congruence;
      rewrite <- Eu; apply digits_no_dash.
Qed.

(** The text after the last dash is determined by the whole string. *)
Lemma dash_suffix_unique (a b d1 d2 : string) :
  (forall s1 s2, d1 <> s1 ++ String "-" s2) ->
  (forall s1 s2, d2 <> s1 ++ String "-" s2) ->
  a ++ String "-" d1 = b ++ String "-" d2 -> d1 = d2.
Proof.
  intros H1 H2. revert b.
  induction a as [|ch a IH]; intros [|ch' b] H; simpl in H.
  - injection H as H. exact H.
  - injection H as _ H. exfalso. exact (H1 _ _ H).
  - injection H as _ H. exfalso. symmetry in H. exact (H2 _ _ H).
  - injection H as _ H. exact (IH _ H).
Qed.

Lemma vm_name_index_inj (a b : string) (i j : nat) :
  vm_name a (Z.of_nat i) = vm_name b (Z.of_nat j) -> i = j.
Proof.
  unfold vm_name. simpl. intros H. injection H as H.
  apply dash_suffix_unique in H; try apply fmt_d_no_dash.
  apply fmt_d_inj in H. lia.
Qed.

Lemma nth_error_range_confs (c : Context) (job : VMJob) (images : list string) :
  forall k i,
    nth_error (range_confs c job k images) i
    = option_map (mkConf c job (k + i)) (nth_error images i).
Proof.
  induction images as [|image rest IH]; intros k [|i]; simpl; try reflexivity.
  - rewrite Nat.add_0_r. reflexivity.
  - rewrite IH. rewrite Nat.add_succ_r. reflexivity.
Qed.

(** ** Lists of workers *)

Lemma length_upd {A} (f : A -> A) (l : list A) :
  forall i, List.length (upd i f l) = List.length l.
Proof.
  induction l as [|x l IH]; intros [|i]; simpl; auto.
Qed.

Lemma nth_error_upd {A} (f : A -> A) (l : list A) :
  forall i j,
    nth_error (upd i f l) j
    = if Nat.eqb i j then option_map f (nth_error l j) else nth_error l j.
Proof.
  induction l as [|x l IH]; intros [|i] [|j]; simpl; auto;
    destruct (Nat.eqb _ _); reflexivity.
Qed.

Lemma map_upd {A B} (g : A -> B) (f : A -> A) (l : list A) :
  (forall x, g (f x) = g x) -> forall i, map g (upd i f l) = map g l.
Proof.
  intros H. induction l as [|x l IH]; intros [|i]; simpl; auto.
  - rewrite H. reflexivity.
  - rewrite IH. reflexivity.
Qed.

Lemma upd_last {A} (f : A -> A) (l : list A) (x : A) :
  upd (List.length l) f (l ++ [x])%list = (l ++ [f x])%list.
Proof.
  induction l as [|y l IH]; simpl; [reflexivity | rewrite IH; reflexivity].
Qed.

Lemma count_nonneg (p : Worker -> bool) (ws : list Worker) : 0 <= count p ws.
Proof. unfold count. lia. Qed.

Lemma count_app (p : Worker -> bool) (a b : list Worker) :
  count p (a ++ b)%list = count p a + count p b.
Proof.
  unfold count. rewrite filter_app, length_app. lia.
Qed.

Lemma count_cons (p : Worker -> bool) (w : Worker) (ws : list Worker) :
  count p (w :: ws) = Z.b2z (p w) + count p ws.
Proof.
  unfold count. simpl. destruct (p w); simpl List.length; simpl Z.b2z; lia.
Qed.

Lemma count_upd (p : Worker -> bool) (f : Worker -> Worker) (ws : list Worker) :
  forall i w,
    nth_error ws i = Some w ->
    count p (upd i f ws) = count p ws - Z.b2z (p w) + Z.b2z (p (f w)).
Proof.
  induction ws as [|x ws IH]; intros [|i] w H; simpl in H; try discriminate.
  - injection H as ->. simpl upd. rewrite !count_cons. lia.
  - simpl upd. rewrite !count_cons. rewrite (IH _ _ H). lia.
Qed.

Lemma count_member (p : Worker -> bool) (ws : list Worker) (i : nat) (w : Worker) :
  nth_error ws i = Some w -> p w = true -> 1 <= count p ws.
Proof.
  revert i. induction ws as [|x ws IH]; intros [|i] H Hp; simpl in H;
    try discriminate.
  - injection H as ->. rewrite count_cons, Hp.
    pose proof (count_nonneg p ws). cbn [Z.b2z]. lia.
  - rewrite count_cons. pose proof (IH i H Hp).
    destruct (p x); cbn [Z.b2z]; lia.
Qed.

Lemma count_zero (p : Worker -> bool) (ws : list Worker) (i : nat) (w : Worker) :
  count p ws = 0 -> nth_error ws i = Some w -> p w = false.
Proof.
  intros H0 H. destruct (p w) eqn:E; [|reflexivity].
  pose proof (count_member p ws i w H E). lia.
Qed.

Lemma range_confs_length (c : Context) (job : VMJob) (images : list string) :
  forall k, List.length (range_confs c job k images) = List.length images.
Proof.
  induction images as [|x images IH]; intros k; simpl; auto.
Qed.

(** ** Schedules *)

Lemma exec_app (c : Context) (job : VMJob) (t1 t2 : list Label) :
  forall s,
    exec c job s (t1 ++ t2)%list
    = match exec c job s t1 with
      | Some s' => exec c job s' t2
      | None => None
      end.
Proof.
  induction t1 as [|l t1 IH]; intros s; simpl; [reflexivity|].
  destruct (step c job s l); [apply IH | reflexivity].
Qed.

Lemma reachable_snoc (c : Context) (job : VMJob) (t : list Label) (l : Label) (s' : State) :
  reachable c job (t ++ [l])%list s' ->
  exists s, reachable c job t s /\ step c job s l = Some s'.
Proof.
  unfold reachable. rewrite exec_app.
  destruct (exec c job (init c job) t) as [s|]; [|discriminate].
  simpl. destruct (step c job s l) as [s1|] eqn:E; [|discriminate].
  intros H. injection H as <-. exists s. split; [reflexivity | exact E].
Qed.

Lemma releases_snoc i t l :
  releases i (t ++ [l])%list = (releases i t + (if is_release i l then 1 else 0))%nat.
Proof.
  unfold releases. rewrite filter_app, length_app. simpl.
  destruct (is_release i l); reflexivity.
Qed.

Lemma wg_dones_snoc i t l :
  wg_dones i (t ++ [l])%list = (wg_dones i t + (if is_wg_done i l then 1 else 0))%nat.
Proof.
  unfold wg_dones. rewrite filter_app, length_app. simpl.
  destruct (is_wg_done i l); reflexivity.
Qed.

Lemma job_done_calls_snoc t l :
  job_done_calls (t ++ [l])%list
  = (job_done_calls t + (if is_job_done l then 1 else 0))%nat.
Proof.
  unfold job_done_calls. rewrite filter_app, length_app. simpl.
  destruct (is_job_done l); reflexivity.
Qed.

Lemma milestones_snoc t l :
  milestones (t ++ [l])%list
  = (milestones t ++ (if is_milestone l then [l] else []))%list.
Proof.
  unfold milestones. rewrite filter_app. simpl.
  destruct (is_milestone l); reflexivity.
Qed.

Lemma sent_snoc t l :
  sent (t ++ [l])%list
  = (sent t ++ match l with LSend _ o => [o] | _ => [] end)%list.
Proof.
  unfold sent. rewrite flat_map_app. simpl. rewrite app_nil_r. reflexivity.
Qed.

Lemma processed_snoc t l :
  processed (t ++ [l])%list
  = (processed t ++ match l with LProcess o => [o] | _ => [] end)%list.
Proof.
  unfold processed. rewrite flat_map_app. simpl. rewrite app_nil_r. reflexivity.
Qed.

Lemma existsb_snoc (f : Label -> bool) t l :
  existsb f (t ++ [l])%list = existsb f t || f l.
Proof.
  rewrite existsb_app. simpl. rewrite orb_false_r. reflexivity.
Qed.

Lemma quiet_after_snoc (mark noisy : Label -> bool) (t : list Label) (l : Label) :
  quiet_after mark noisy (t ++ [l])%list
  = quiet_after mark noisy t && (negb (existsb mark t) || negb (noisy l)).
Proof.
  induction t as [|x t IH]; simpl.
  - destruct (mark l); reflexivity.
  - destruct (mark x); simpl.
    + rewrite forallb_app. simpl. rewrite andb_true_r. reflexivity.
    + exact IH.
Qed.

Lemma VMOutput_eqb_eq (a b : VMOutput) : VMOutput_eqb a b = true -> a = b.
Proof.
  unfold VMOutput_eqb. destruct a, b; simpl.
  intros H. apply andb_true_iff in H as [H1 H2].
  apply String.eqb_eq in H1, H2. subst. reflexivity.
Qed.

Lemma VMOutput_eqb_refl (a : VMOutput) : VMOutput_eqb a a = true.
Proof.
  unfold VMOutput_eqb. rewrite !String.eqb_refl. reflexivity.
Qed.

(** ** The invariant holds of every reachable state *)

Lemma Acquire_one_spec (x : Semaphore.Weighted) :
  match Semaphore.Acquire x 1 with
  | Semaphore.Granted x' =>
      Semaphore.waiters x = [] /\ Semaphore.cur x + 1 <= Semaphore.size x /\
      x' = {| Semaphore.size := Semaphore.size x;
              Semaphore.cur := Semaphore.cur x + 1;
              Semaphore.waiters := [] |}
  | Semaphore.Queued x' =>
      1 <= Semaphore.size x /\
      (Semaphore.waiters x = [] -> Semaphore.size x <= Semaphore.cur x) /\
      x' = {| Semaphore.size := Semaphore.size x;
              Semaphore.cur := Semaphore.cur x;
              Semaphore.waiters := (Semaphore.waiters x ++ [1])%list |}
  | Semaphore.Doomed => Semaphore.size x < 1
  end.
Proof.
  unfold Semaphore.Acquire.
  destruct (Z.leb_spec 1 (Semaphore.size x - Semaphore.cur x)) as [H|H];
    destruct (Semaphore.waiters x) as [|w ws] eqn:Ew; simpl;
    try (repeat split; [lia | reflexivity]);
    destruct (Z.ltb_spec (Semaphore.size x) 1) as [H'|H']; try assumption;
    repeat split; try lia; try discriminate; try reflexivity.
Qed.

Lemma Release_one_spec (x : Semaphore.Weighted) :
  (Semaphore.waiters x = [] ->
   Semaphore.Release x 1
   = if Semaphore.cur x - 1 <? 0 then None
     else Some ({| Semaphore.size := Semaphore.size x;
                   Semaphore.cur := Semaphore.cur x - 1;
                   Semaphore.waiters := [] |}, O)) /\
  (Semaphore.waiters x = [1] -> Semaphore.size x <= Semaphore.cur x ->
   Semaphore.cur x <= Semaphore.size x -> 1 <= Semaphore.size x ->
   Semaphore.Release x 1
   = Some ({| Semaphore.size := Semaphore.size x;
              Semaphore.cur := Semaphore.cur x;
              Semaphore.waiters := [] |}, 1%nat)).
Proof.
  unfold Semaphore.Release. split.
  - intros ->. simpl. reflexivity.
  - intros -> H1 H2 H3. simpl.
    destruct (Z.ltb_spec (Semaphore.cur x - 1) 0); [lia|].
    destruct (Z.ltb_spec (Semaphore.size x - (Semaphore.cur x - 1)) 1); [lia|].
    repeat f_equal. lia.
Qed.

Lemma count_nil (p : Worker -> bool) : count p [] = 0.
Proof. reflexivity. Qed.

Ltac break_step H :=
  repeat match type of H with
         | context [match ?x with _ => _ end] =>
             let E := fresh "E" in
             destruct x eqn:E; try discriminate H; try rewrite E in *
         end.

Ltac inv_arith :=
  simpl in *; auto; try lia; try congruence; try discriminate.

(** A worker that is still running keeps the main goroutine and the
    aggregator from having finished. *)
Ltac member_facts :=
  match goal with
  | E : nth_error (workers _) _ = Some ?w |- _ =>
      let Hl := fresh "Hlive" in
      let Hh := fresh "Hholds" in
      pose proof (count_member live _ _ _ E) as Hl;
      pose proof (count_member holds_token _ _ _ E) as Hh;
      simpl in Hl, Hh;
      try specialize (Hl eq_refl); try specialize (Hh eq_refl)
  end.

Ltac by_cases s Ij :=
  try (let Hd := fresh "Hd" in intros Hd; specialize (Ij Hd); lia);
  try (destruct (orch s); simpl in *; auto; try discriminate; try lia;
       try (specialize (Ij eq_refl); lia); fail);
  try (destruct (agg s); simpl in *; auto; try discriminate; try lia; fail).

Lemma Inv_init (c : Context) (job : VMJob) : Inv c job (init c job).
Proof.
  constructor; simpl; try reflexivity; auto.
Qed.

Lemma Inv_step (c : Context) (job : VMJob) (s s' : State) (l : Label) :
  Inv c job s -> step c job s l = Some s' -> Inv c job s'.
Proof.
  intros HI Hs. unfold step in Hs.
  rewrite (inv_panicked _ _ _ HI) in Hs.
  destruct HI as [Ip Isz Icur Iw Iq Ib Iwg Icf Iix Ij Icl Irw Iac Idr].
  destruct l.
  - (* LWgAdd *)
    break_step Hs; injection Hs as <-; constructor; inv_arith; by_cases s Ij.
  - (* LAcquire *)
    pose proof (Acquire_one_spec (sm s)) as HA.
    break_step Hs; injection Hs as <-;
      try (destruct HA as (HA1 & HA2 & ->)); constructor; inv_arith;
      try (rewrite Iw; reflexivity); by_cases s Ij.
  - (* LGo *)
    break_step Hs; injection Hs as <-; constructor; simpl in *;
      rewrite ?count_app, ?count_cons, ?count_nil, ?length_app, ?map_app;
      simpl; inv_arith; by_cases s Ij.
    rewrite Nat.add_1_r, Iix, <- app_assoc. exact Icf.
  - (* LWgWait *)
    break_step Hs; injection Hs as <-; constructor; inv_arith; by_cases s Ij.
  - (* LClose *)
    break_step Hs; try injection Hs as <-; try discriminate;
      constructor; inv_arith; by_cases s Ij.
  - (* LResWgWait *)
    break_step Hs; injection Hs as <-; constructor; inv_arith; by_cases s Ij.
  - (* LJobDone *)
    break_step Hs; injection Hs as <-; constructor; inv_arith; by_cases s Ij.
  - (* LRunVM *)
    break_step Hs; injection Hs as <-; member_facts;
      constructor; unfold set_wpc; simpl;
      rewrite ?length_upd, ?map_upd by reflexivity;
      repeat (erewrite count_upd by eassumption);
      inv_arith; by_cases s Ij.
  - (* LRecv *)
    break_step Hs; injection Hs as <-; member_facts; destruct e;
      constructor; unfold set_wpc; simpl;
      rewrite ?length_upd, ?map_upd by reflexivity;
      repeat (erewrite count_upd by eassumption);
      inv_arith; by_cases s Ij.
  - (* LSend *)
    break_step Hs; injection Hs as <-; member_facts.
    + exfalso. destruct (orch s); simpl in *; try discriminate;
        specialize (Ij eq_refl); lia.
    + constructor; unfold set_wpc; simpl;
      rewrite ?length_upd, ?map_upd by reflexivity;
      repeat (erewrite count_upd by eassumption);
      inv_arith; by_cases s Ij.
  - (* LRelease *)
    destruct (nth_error (workers s) i) as [[cf pc]|] eqn:Ew; [|discriminate].
    destruct pc; try discriminate.
    pose proof (count_member holds_token _ _ _ Ew eq_refl) as Hholds.
    pose proof (count_member live _ _ _ Ew eq_refl) as Hlive.
    destruct (Release_one_spec (sm s)) as [R0 R1].
    destruct (orch s) eqn:Eo; simpl in *;
      try (rewrite (R0 Iw) in Hs;
           destruct (Z.ltb_spec (Semaphore.cur (sm s) - 1) 0); [lia|]);
      try (rewrite R1 in Hs by (auto; lia));
      injection Hs as <-;
      constructor; unfold set_wpc; simpl;
      rewrite ?Eo, ?length_upd, ?map_upd by reflexivity;
      repeat (erewrite count_upd by eassumption);
      inv_arith;
      try (specialize (Ij eq_refl); lia).
  - (* LWgDone *)
    break_step Hs; injection Hs as <-; member_facts.
    + exfalso. apply Z.ltb_lt in E2. pose proof (count_nonneg live (workers s)).
      destruct (orch s); simpl in *; lia.
    + constructor; unfold set_wpc; simpl;
      rewrite ?length_upd, ?map_upd by reflexivity;
      repeat (erewrite count_upd by eassumption);
      inv_arith; by_cases s Ij.
  - (* LProcess *)
    break_step Hs; injection Hs as <-; constructor; inv_arith; by_cases s Ij.
  - (* LRangeEnd *)
    break_step Hs; injection Hs as <-; constructor; inv_arith; by_cases s Ij.
  - (* LResWgDone *)
    break_step Hs; injection Hs as <-; constructor; inv_arith; by_cases s Ij.
Qed.

Lemma nth_error_snoc {A} (l : list A) (x : A) (i : nat) :
  nth_error (l ++ [x])%list i
  = if (i <? List.length l)%nat then nth_error l i
    else if Nat.eqb i (List.length l) then Some x else None.
Proof.
  destruct (Nat.ltb_spec i (List.length l)) as [H|H].
  - apply nth_error_app1. exact H.
  - rewrite nth_error_app2 by exact H.
    destruct (Nat.eqb_spec i (List.length l)) as [->|Hne].
    + rewrite Nat.sub_diag. reflexivity.
    + destruct (i - List.length l)%nat as [|k] eqn:E; [lia|].
      simpl. destruct k; reflexivity.
Qed.

Ltac snoc_norm :=
  rewrite ?releases_snoc, ?wg_dones_snoc, ?job_done_calls_snoc, ?milestones_snoc,
    ?sent_snoc, ?processed_snoc, ?existsb_snoc, ?quiet_after_snoc.

Lemma TInv_init (c : Context) (job : VMJob) : TInv [] (init c job).
Proof.
  constructor; simpl; try reflexivity; intros [|i]; reflexivity.
Qed.

Ltac tinv_goal Tr Tw Tj Ts Tm Te Ta Tq Tg :=
  simpl in *;
  rewrite ?Tq, ?Tg, ?Te, ?Ta, ?Tj, ?Tm, ?Ts, ?Tr, ?Tw;
  simpl;
  rewrite ?Nat.add_0_r, ?app_nil_r, ?orb_false_r, ?orb_true_r, ?andb_true_r;
  auto; try congruence.

Ltac at_index Ew :=
  rewrite nth_error_upd;
  match goal with
  | |- context [Nat.eqb ?i ?i0] =>
      destruct (Nat.eqb_spec i i0) as [->|Hne];
      [ rewrite ?Nat.eqb_refl, Ew; reflexivity
      | try rewrite (proj2 (Nat.eqb_neq i0 i)) by congruence;
        rewrite ?Nat.add_0_r; reflexivity ]
  end.

Lemma TInv_step (c : Context) (job : VMJob) (t : list Label) (s s' : State) (l : Label) :
  Inv c job s -> TInv t s -> step c job s l = Some s' -> TInv (t ++ [l])%list s'.
Proof.
  intros HI HT Hs.
  pose proof (inv_panicked _ _ _ (Inv_step c job s s' l HI Hs)) as Hnp.
  unfold step in Hs. rewrite (inv_panicked _ _ _ HI) in Hs.
  destruct HI as [Ip Isz Icur Iw Iq Ib Iwg Icf Iix Ij Icl Irw Iac Idr].
  destruct HT as [Tr Tw Tj Ts Tm Te Ta Tq Tg].
  destruct l.
  - (* LWgAdd *)
    break_step Hs; injection Hs as <-; constructor; try intros i0; snoc_norm;
      tinv_goal Tr Tw Tj Ts Tm Te Ta Tq Tg; by_cases s Ij.
  - break_step Hs; injection Hs as <-; constructor; try intros i0; snoc_norm;
      tinv_goal Tr Tw Tj Ts Tm Te Ta Tq Tg; by_cases s Ij.
  - (* LGo *)
    break_step Hs; injection Hs as <-; constructor; try intros i0; snoc_norm;
      tinv_goal Tr Tw Tj Ts Tm Te Ta Tq Tg; by_cases s Ij;
      rewrite nth_error_snoc;
      destruct (Nat.ltb_spec i0 (List.length (workers s))) as [Hlt|Hge];
      try reflexivity;
      apply nth_error_None in Hge; rewrite Hge;
      destruct (Nat.eqb i0 (List.length (workers s))); reflexivity.
  - (* LWgWait *)
    break_step Hs; injection Hs as <-; constructor; try intros i0; snoc_norm;
      tinv_goal Tr Tw Tj Ts Tm Te Ta Tq Tg; by_cases s Ij.
  - break_step Hs; try discriminate; injection Hs as <-; constructor; try intros i0; snoc_norm;
      tinv_goal Tr Tw Tj Ts Tm Te Ta Tq Tg; by_cases s Ij.
  - break_step Hs; injection Hs as <-; constructor; try intros i0; snoc_norm;
      tinv_goal Tr Tw Tj Ts Tm Te Ta Tq Tg; by_cases s Ij.
  - break_step Hs; injection Hs as <-; constructor; try intros i0; snoc_norm;
      tinv_goal Tr Tw Tj Ts Tm Te Ta Tq Tg; by_cases s Ij.
  - (* LRunVM *)
    break_step Hs; injection Hs as <-; member_facts;
      try (simpl in Hnp; discriminate Hnp);
      constructor; try intros i0; snoc_norm; unfold set_wpc;
      tinv_goal Tr Tw Tj Ts Tm Te Ta Tq Tg; by_cases s Ij;
      try (at_index E);
      try (destruct n, (orch s); reflexivity).
  - (* LRecv *)
    break_step Hs; injection Hs as <-; member_facts; destruct e;
      try (simpl in Hnp; discriminate Hnp);
      constructor; try intros i0; snoc_norm; unfold set_wpc;
      tinv_goal Tr Tw Tj Ts Tm Te Ta Tq Tg; by_cases s Ij;
      try (at_index E);
      try (destruct n, (orch s); reflexivity).
  - (* LSend *)
    break_step Hs; injection Hs as <-; member_facts;
      try (simpl in Hnp; discriminate Hnp);
      constructor; try intros i0; snoc_norm; unfold set_wpc;
      tinv_goal Tr Tw Tj Ts Tm Te Ta Tq Tg; by_cases s Ij;
      try (at_index E);
      try (destruct n, (orch s); reflexivity).
  - (* LRelease *)
    break_step Hs; injection Hs as <-; member_facts;
      try (simpl in Hnp; discriminate Hnp);
      constructor; try intros i0; snoc_norm; unfold set_wpc;
      tinv_goal Tr Tw Tj Ts Tm Te Ta Tq Tg; by_cases s Ij;
      try (at_index E);
      try (destruct n, (orch s); reflexivity).
  - (* LWgDone *)
    break_step Hs; injection Hs as <-; member_facts;
      try (simpl in Hnp; discriminate Hnp);
      constructor; try intros i0; snoc_norm; unfold set_wpc;
      tinv_goal Tr Tw Tj Ts Tm Te Ta Tq Tg; by_cases s Ij;
      try (at_index E);
      try (destruct n, (orch s); reflexivity).
  - (* LProcess *)
    break_step Hs; injection Hs as <-; constructor; try intros i0; snoc_norm;
      tinv_goal Tr Tw Tj Ts Tm Te Ta Tq Tg; by_cases s Ij.
    apply VMOutput_eqb_eq in E0. congruence.
  - (* LRangeEnd *)
    break_step Hs; injection Hs as <-; constructor; try intros i0; snoc_norm;
      tinv_goal Tr Tw Tj Ts Tm Te Ta Tq Tg; by_cases s Ij.
  - (* LResWgDone *)
    break_step Hs; try (exfalso; lia); injection Hs as <-; constructor; try intros i0; snoc_norm;
      tinv_goal Tr Tw Tj Ts Tm Te Ta Tq Tg; by_cases s Ij.
    destruct (orch s); simpl in *; try discriminate; congruence.
Qed.

Lemma reachable_invariant (c : Context) (job : VMJob) (t : list Label) :
  forall s, reachable c job t s -> Inv c job s /\ TInv t s.
Proof.
  induction t as [|l t IH] using rev_ind; intros s H.
  - unfold reachable in H. simpl in H. injection H as <-.
    split; [apply Inv_init | apply TInv_init].
  - apply reachable_snoc in H as (s0 & Hr & Hs).
    destruct (IH _ Hr) as [HI HT].
    split; [exact (Inv_step _ _ _ _ _ HI Hs) | exact (TInv_step _ _ _ _ _ _ HI HT Hs)].
Qed.

(** ** The worker function is the view of a run from one worker *)

Lemma worker_loop_snoc (cf : VMConfig) (evs : list Event) (e : Event) :
  snd (worker_loop cf evs) = false ->
  worker_loop cf (evs ++ [e])%list
  = ((fst (worker_loop cf evs) ++ select_actions (worker_select cf e))%list,
     match snd (worker_select cf e) with Return => true | Continue => false end).
Proof.
  induction evs as [|x evs IH]; simpl.
  - intros _. destruct e; reflexivity.
  - destruct (snd (worker_select cf x)) eqn:Ex.
    + destruct (worker_loop cf evs) as [la r] eqn:El. simpl. intros Hr.
      rewrite (IH Hr). simpl. rewrite app_assoc. reflexivity.
    + simpl. discriminate.
Qed.

Lemma worker_events_snoc i t l :
  worker_events i (t ++ [l])%list
  = (worker_events i t
       ++ match l with
          | LRecv j e => if Nat.eqb i j then [e] else []
          | _ => []
          end)%list.
Proof.
  unfold worker_events. rewrite flat_map_app. simpl. rewrite app_nil_r. reflexivity.
Qed.

Lemma worker_actions_snoc i cf t l :
  worker_actions i cf (t ++ [l])%list
  = (worker_actions i cf t
       ++ match l with
          | LRunVM j => if Nat.eqb i j then [ARunVM cf] else []
          | LRecv j e =>
              if Nat.eqb i j
              then [ALog (fst (fst (worker_select cf e)))] else []
          | LSend j o => if Nat.eqb i j then [ASend o] else []
          | LRelease j => if Nat.eqb i j then [ARelease] else []
          | LWgDone j => if Nat.eqb i j then [AWgDone] else []
          | _ => []
          end)%list.
Proof.
  unfold worker_actions. rewrite flat_map_app. simpl. rewrite app_nil_r. reflexivity.
Qed.

Lemma worker_view_step (cf : VMConfig) (e : Event) (evs : list Event) (acts : list Action) :
  worker_view cf WSelect evs acts ->
  worker_view cf (after_select (worker_select cf e)) (evs ++ [e])%list
    (acts ++ [ALog (fst (fst (worker_select cf e)))])%list.
Proof.
  unfold worker_view. intros [Ha Hr].
  rewrite (worker_loop_snoc cf evs e Hr). subst acts.
  destruct e; simpl; split; try reflexivity;
    rewrite <- ?app_assoc; reflexivity.
Qed.

Ltac wsnoc :=
  rewrite ?worker_events_snoc, ?worker_actions_snoc; simpl;
  rewrite ?app_nil_r.

Ltac wsame HW i :=
  specialize (HW i);
  let w := fresh "w" in
  destruct (nth_error (workers _) i) as [w|];
  [ wsnoc; exact HW
  | destruct HW as [HW1 HW2]; split; [|intros cf]; wsnoc; auto ].

Lemma WInv_init (c : Context) (job : VMJob) : WInv [] (init c job).
Proof.
  intros [|i]; simpl; split; reflexivity.
Qed.

Ltac wother HW i n :=
  let Hni := fresh "Hni" in
  assert (Hni : Nat.eqb i n = false) by (apply Nat.eqb_neq; congruence);
  specialize (HW i);
  let w := fresh "w" in
  destruct (nth_error (workers _) i) as [w|];
  [ rewrite worker_events_snoc, worker_actions_snoc; cbn beta iota;
    rewrite Hni, !app_nil_r; exact HW
  | destruct HW as [HW1 HW2]; split; [|intros cf];
    rewrite ?worker_events_snoc, ?worker_actions_snoc; cbn beta iota;
    rewrite ?Hni, ?app_nil_r; auto ].

Ltac wself HW i E :=
  specialize (HW i); rewrite E in HW; rewrite E; simpl in HW |- *;
  rewrite worker_events_snoc, worker_actions_snoc; cbn beta iota;
  rewrite ?Nat.eqb_refl.

Lemma WInv_step (c : Context) (job : VMJob) (t : list Label) (s s' : State) (l : Label) :
  Inv c job s -> WInv t s -> step c job s l = Some s' -> WInv (t ++ [l])%list s'.
Proof.
  intros HI HW Hs i.
  pose proof (inv_panicked _ _ _ (Inv_step c job s s' l HI Hs)) as Hnp.
  unfold step in Hs. rewrite (inv_panicked _ _ _ HI) in Hs.
  destruct l.
  - break_step Hs; injection Hs as <-; simpl. wsame HW i.
  - break_step Hs; injection Hs as <-; simpl; wsame HW i.
  - (* LGo *)
    break_step Hs; injection Hs as <-; simpl.
    rewrite nth_error_snoc. specialize (HW i).
    destruct (Nat.ltb_spec i (List.length (workers s))) as [Hlt|Hge].
    + destruct (nth_error (workers s) i) as [w|];
        [ wsnoc; exact HW
        | destruct HW as [HW1 HW2]; split; [|intros cf]; wsnoc; auto ].
    + apply nth_error_None in Hge. rewrite Hge in HW. destruct HW as [HW1 HW2].
      destruct (Nat.eqb i (List.length (workers s))); simpl.
      * wsnoc. split; auto.
      * split; [|intros cf]; wsnoc; auto.
  - break_step Hs; injection Hs as <-; simpl; wsame HW i.
  - break_step Hs; try discriminate; injection Hs as <-; simpl; wsame HW i.
  - break_step Hs; injection Hs as <-; simpl; wsame HW i.
  - break_step Hs; injection Hs as <-; simpl; wsame HW i.
  - (* LRunVM *)
    break_step Hs; injection Hs as <-; unfold set_wpc; simpl.
    rewrite nth_error_upd.
    destruct (Nat.eqb_spec i0 i) as [->|Hne]; [|wother HW i i0].
    wself HW i E. destruct HW as [-> ->]. simpl. split; reflexivity.
  - (* LRecv *)
    break_step Hs; injection Hs as <-; unfold set_wpc; simpl.
    rewrite nth_error_upd.
    destruct (Nat.eqb_spec i0 i) as [->|Hne]; [|wother HW i i0].
    wself HW i E. apply worker_view_step. exact HW.
  - (* LSend *)
    break_step Hs; injection Hs as <-; try (simpl in Hnp; discriminate Hnp);
      unfold set_wpc; simpl.
    rewrite nth_error_upd.
    destruct (Nat.eqb_spec i0 i) as [->|Hne]; [|wother HW i i0].
    wself HW i E. rewrite app_nil_r.
    apply negb_false_iff, VMOutput_eqb_eq in E2. subst. exact HW.
  - (* LRelease *)
    break_step Hs; injection Hs as <-; try (simpl in Hnp; discriminate Hnp);
      unfold set_wpc; simpl.
    rewrite nth_error_upd.
    destruct (Nat.eqb_spec i0 i) as [->|Hne]; [|wother HW i i0].
    wself HW i E. rewrite app_nil_r. destruct HW as [-> Hr].
    split; [reflexivity | exact Hr].
  - (* LWgDone *)
    break_step Hs; injection Hs as <-; try (simpl in Hnp; discriminate Hnp);
      unfold set_wpc; simpl.
    rewrite nth_error_upd.
    destruct (Nat.eqb_spec i0 i) as [->|Hne]; [|wother HW i i0].
    wself HW i E. rewrite app_nil_r. destruct HW as [-> Hr].
    unfold worker. destruct (worker_loop conf0 (worker_events i t)) as [la r].
    simpl in *. subst r. simpl. rewrite <- app_assoc. split; reflexivity.
  - break_step Hs; injection Hs as <-; simpl; wsame HW i.
  - break_step Hs; injection Hs as <-; simpl; wsame HW i.
  - break_step Hs; try (simpl in Hnp; discriminate Hnp); injection Hs as <-; simpl; wsame HW i.
Qed.

Lemma reachable_worker_view (c : Context) (job : VMJob) (t : list Label) :
  forall s, reachable c job t s -> WInv t s.
Proof.
  induction t as [|l t IH] using rev_ind; intros s H.
  - unfold reachable in H. simpl in H. injection H as <-. apply WInv_init.
  - apply reachable_snoc in H as (s0 & Hr & Hs).
    destruct (reachable_invariant _ _ _ _ Hr) as [HI _].
    exact (WInv_step _ _ _ _ _ _ HI (IH _ Hr) Hs).
Qed.

(** ** Admission *)

Lemma step_workers_length (c : Context) (job : VMJob) (s s' : State) (l : Label) :
  step c job s l = Some s' ->
  List.length (workers s') <> List.length (workers s) ->
  l = LGo /\ token_in_hand (orch s) = 1.
Proof.
  intros Hs Hlen. unfold step in Hs.
  destruct (panicked s); [discriminate|].
  destruct l; break_step Hs; injection Hs as <-;
    unfold set_wpc in Hlen; simpl in Hlen; rewrite ?length_upd in Hlen;
    try congruence.
  split; reflexivity.
Qed.

Lemma no_worker_without_capacity (c : Context) (job : VMJob) (t : list Label) :
  GlobalInt c "parallelism" <= 0 ->
  forall s, reachable c job t s -> workers s = [].
Proof.
  intros HP. induction t as [|l t IH] using rev_ind; intros s H.
  - unfold reachable in H. simpl in H. injection H as <-. reflexivity.
  - apply reachable_snoc in H as (s0 & Hr & Hs).
    pose proof (IH _ Hr) as Hw.
    destruct (reachable_invariant _ _ _ _ Hr) as [HI _].
    destruct (Nat.eq_dec (List.length (workers s)) (List.length (workers s0)))
      as [E|E].
    + rewrite Hw in E. destruct (workers s); [reflexivity | discriminate].
    + destruct (step_workers_length _ _ _ _ _ Hs E) as [_ Hh].
      pose proof (inv_cur _ _ _ HI) as Hc. pose proof (inv_bound _ _ _ HI) as Hb.
      pose proof (inv_size _ _ _ HI) as Hz.
      pose proof (count_nonneg holds_token (workers s0)). lia.
Qed.

(** C1, as the code has it: in every reachable state the number of workers
    that hold a token, and the number of units taken from the semaphore, are
    at most the parallelism [P] when [P >= 0], and zero when [P <= 0] (no
    worker is ever started then); the count of the semaphore is the number
    of these workers plus the token the dispatch loop has acquired for the
    worker it is about to start; a worker is started only by the step [LGo],
    taken with that token in hand; and the call of [sm.Acquire] yields the
    token only when a unit is free, leaving the main goroutine without a step
    of its own otherwise. *)
Theorem admission_bound (c : Context) (job : VMJob) (t : list Label) (s : State) :
  reachable c job t s ->
  count holds_token (workers s) <= Z.max 0 (GlobalInt c "parallelism") /\
  0 <= Semaphore.cur (sm s) <= Z.max 0 (GlobalInt c "parallelism") /\
  (GlobalInt c "parallelism" <= 0 -> workers s = []) /\
  Semaphore.cur (sm s) = count holds_token (workers s) + token_in_hand (orch s) /\
  (forall l s', step c job s l = Some s' ->
     List.length (workers s') <> List.length (workers s) ->
     l = LGo /\ token_in_hand (orch s) = 1) /\
  (forall s', step c job s LAcquire = Some s' ->
     (token_in_hand (orch s') = 1 /\
      Semaphore.cur (sm s) + 1 <= GlobalInt c "parallelism") \/
     (token_in_hand (orch s') = 0 /\ workers s' = workers s /\
      GlobalInt c "parallelism" <= Semaphore.cur (sm s) /\
      forall l s'', step c job s' l = Some s'' -> is_main l = false)).
Proof.
  intros Hr.
  destruct (reachable_invariant _ _ _ _ Hr) as [HI _].
  pose proof (inv_cur _ _ _ HI) as Hc. pose proof (inv_bound _ _ _ HI) as Hb.
  pose proof (inv_size _ _ _ HI) as Hz.
  pose proof (count_nonneg holds_token (workers s)) as Hn.
  assert (Hh : 0 <= token_in_hand (orch s)) by (destruct (orch s); simpl; lia).
  split; [lia|]. split; [lia|].
  split; [intros HP; exact (no_worker_without_capacity _ _ _ HP _ Hr)|].
  split; [exact Hc|].
  split; [intros l s'; apply step_workers_length|].
  intros s' Hs.
  pose proof (Acquire_one_spec (sm s)) as HA.
  pose proof (inv_waiters _ _ _ HI) as Hw.
  unfold step in Hs. rewrite (inv_panicked _ _ _ HI) in Hs.
  destruct (orch s) eqn:Eo; try discriminate.
  destruct (Semaphore.Acquire (sm s) 1) as [x|x|] eqn:EA; injection Hs as <-.
  - left. simpl. split; [reflexivity | lia].
  - right. simpl. destruct HA as (H1 & H2 & ->).
    split; [reflexivity|]. split; [reflexivity|]. split; [specialize (H2 Hw); lia|].
    intros l s'' Hs'. unfold step in Hs'. simpl in Hs'.
    rewrite (inv_panicked _ _ _ HI) in Hs'.
    destruct l; try discriminate; reflexivity.
  - right. simpl. split; [reflexivity|]. split; [reflexivity|].
    split; [simpl in Hc; lia|].
    intros l s'' Hs'. unfold step in Hs'. simpl in Hs'.
    rewrite (inv_panicked _ _ _ HI) in Hs'.
    destruct l; try discriminate; reflexivity.
Qed.

Lemma sample_contended_reachable :
  reachable (sample_context 2 "") sample_job sample_contended sample_contended_state.
Proof. vm_compute. reflexivity. Qed.

Lemma admission_bound_witness :
  count holds_token (workers sample_contended_state) <= 2.
Proof.
  exact (proj1 (admission_bound _ _ _ _ sample_contended_reachable)).
Defined.

(** With a negative parallelism, which [validateParameters] lets through, no
    worker holds a token and yet the number of holders is not at most the
    parallelism; the dispatch loop then never gets past its first
    [sm.Acquire]. *)
Lemma admission_bound_negative_parallelism :
  snd (validateParameters 4 (sample_context (-1) "")) = None /\
  reachable (sample_context (-1) "") sample_job [LWgAdd; LAcquire]
    (set_orch (ODoomed 0 "ubuntu" ["fedora"; "ubuntu"])
       (set_wg 1 (init (sample_context (-1) "") sample_job))) /\
  ~ (forall t s, reachable (sample_context (-1) "") sample_job t s ->
       count holds_token (workers s)
       <= GlobalInt (sample_context (-1) "") "parallelism").
Proof.
  split; [vm_compute; reflexivity|]. split; [vm_compute; reflexivity|].
  intros H.
  specialize (H [] (init (sample_context (-1) "") sample_job) eq_refl).
  vm_compute in H. apply H. reflexivity.
Qed.

(** ** Token conservation *)

Lemma release_actions_app (a b : list Action) :
  release_actions (a ++ b)%list = (release_actions a + release_actions b)%nat.
Proof.
  unfold release_actions. rewrite filter_app, length_app. reflexivity.
Qed.

Lemma select_actions_no_release (conf : VMConfig) (e : Event) :
  release_actions (select_actions (worker_select conf e)) = O.
Proof. destruct e; reflexivity. Qed.

Lemma worker_loop_no_release (conf : VMConfig) (evs : list Event) :
  release_actions (fst (worker_loop conf evs)) = O.
Proof.
  induction evs as [|e evs IH]; simpl; [reflexivity|].
  destruct (snd (worker_select conf e)) eqn:E.
  - destruct (worker_loop conf evs) as [acts r]. simpl in *.
    rewrite release_actions_app, select_actions_no_release, IH. reflexivity.
  - simpl. apply select_actions_no_release.
Qed.

Lemma worker_releases_once (conf : VMConfig) (evs : list Event) :
  release_actions (fst (worker conf evs))
  = if snd (worker conf evs) then 1%nat else O.
Proof.
  unfold worker.
  pose proof (worker_loop_no_release conf evs) as H.
  destruct (worker_loop conf evs) as [acts r]. simpl in *.
  change (ARunVM conf :: acts ++ (if r then [ARelease; AWgDone] else []))%list
    with ([ARunVM conf] ++ acts ++ (if r then [ARelease; AWgDone] else []))%list.
  rewrite !release_actions_app, H. destruct r; reflexivity.
Qed.

Lemma worker_loop_errors_then_done (conf : VMConfig) (errs : list string) (rest : list Event) :
  worker_loop conf (map EvError errs ++ EvDone :: rest)%list
  = ((map (fun err => ALog {| log_level := ErrorLevel; log_vm := BoxName conf;
                              log_msg := err |}) errs
      ++ [ALog {| log_level := InfoLevel; log_vm := BoxName conf;
                  log_msg := "Job Finished." |}])%list,
     true).
Proof.
  induction errs as [|err errs IH]; simpl; [reflexivity|].
  rewrite IH. reflexivity.
Qed.

Lemma count_le (p q : Worker -> bool) (ws : list Worker) :
  (forall w, p w = true -> q w = true) -> count p ws <= count q ws.
Proof.
  intros H. induction ws as [|w ws IH]; [reflexivity|].
  rewrite !count_cons. specialize (H w).
  destruct (p w); [rewrite H by reflexivity|]; destruct (q w); cbn [Z.b2z]; lia.
Qed.

(** What [sm.Release(1)] in the deferred function does to the semaphore:
    it never panics; the count goes down by one, unless the main goroutine
    is queued, which then takes the token over. *)
Lemma release_returns_token (c : Context) (job : VMJob) (s : State)
  (i : nat) (w : Worker) :
  Inv c job s ->
  nth_error (workers s) i = Some w -> wpc w = WRelease ->
  exists s',
    step c job s (LRelease i) = Some s' /\
    panicked s' = false /\
    nth_error (workers s') i = Some {| conf := conf w; wpc := WWgDone |} /\
    (forall j, j <> i -> nth_error (workers s') j = nth_error (workers s) j) /\
    Semaphore.size (sm s') = Semaphore.size (sm s) /\
    Semaphore.waiters (sm s') = [] /\
    match orch s with
    | OQueued j image rest =>
        orch s' = OGo j image rest /\ Semaphore.cur (sm s') = Semaphore.cur (sm s)
    | _ => orch s' = orch s /\ Semaphore.cur (sm s') = Semaphore.cur (sm s) - 1
    end /\
    count holds_token (workers s') = count holds_token (workers s) - 1.
Proof.
  intros HI Hw Hpc.
  assert (Hh : holds_token w = true) by (unfold holds_token; rewrite Hpc; reflexivity).
  pose proof (count_member holds_token _ _ _ Hw Hh) as Hc.
  pose proof (inv_cur _ _ _ HI) as Ic.
  pose proof (inv_waiters _ _ _ HI) as Iw.
  pose proof (inv_queued _ _ _ HI) as Iq.
  pose proof (inv_bound _ _ _ HI) as Ib.
  pose proof (inv_panicked _ _ _ HI) as Ip.
  assert (Hcnt : count holds_token
                   (upd i (fun w0 => {| conf := conf w0; wpc := WWgDone |}) (workers s))
                 = count holds_token (workers s) - 1).
  { rewrite (count_upd _ _ _ _ _ Hw), Hh. simpl. lia. }
  assert (Hi : nth_error
                 (upd i (fun w0 => {| conf := conf w0; wpc := WWgDone |}) (workers s)) i
               = Some {| conf := conf w; wpc := WWgDone |}).
  { rewrite nth_error_upd, Nat.eqb_refl, Hw. reflexivity. }
  assert (Hj : forall j, j <> i ->
                 nth_error
                   (upd i (fun w0 => {| conf := conf w0; wpc := WWgDone |}) (workers s)) j
                 = nth_error (workers s) j).
  { intros j Hne. rewrite nth_error_upd.
    destruct (Nat.eqb_spec i j); [congruence | reflexivity]. }
  assert (Hin : 0 <= token_in_hand (orch s)) by (destruct (orch s); simpl; lia).
  unfold step. rewrite Ip, Hw. destruct w as [cf pc]. simpl in Hpc. subst pc.
  destruct (orch s) eqn:Eo;
    try (rewrite (proj1 (Release_one_spec (sm s)) Iw);
         destruct (Z.ltb_spec (Semaphore.cur (sm s) - 1) 0); [simpl in Ic; lia|];
         eexists; split; [reflexivity|]; simpl; rewrite ?Eo;
         repeat split; solve [assumption | reflexivity]).
  destruct Iq as [Iq1 Iq2].
  rewrite (proj2 (Release_one_spec (sm s)) Iw Iq2 ltac:(lia) Iq1).
  eexists; split; [reflexivity|]; simpl; rewrite ?Eo;
    repeat split; solve [assumption | reflexivity].
Qed.

(** Once [wg.Wait()] has returned the semaphore is as [NewWeighted] made
    it: no token is out. *)
Lemma joined_semaphore_free (c : Context) (job : VMJob) (s : State) :
  Inv c job s -> dispatching (orch s) = false ->
  sm s = Semaphore.NewWeighted (GlobalInt c "parallelism").
Proof.
  intros HI Hd.
  pose proof (inv_joined _ _ _ HI Hd) as Hl.
  pose proof (count_le holds_token live (workers s)) as Hle.
  assert (Hc : count holds_token (workers s) = 0).
  { pose proof (count_nonneg holds_token (workers s)).
    assert (count holds_token (workers s) <= count live (workers s)).
    { apply Hle. intros w. unfold holds_token, live. destruct (wpc w); auto. }
    lia. }
  pose proof (inv_cur _ _ _ HI) as Ic.
  pose proof (inv_waiters _ _ _ HI) as Iw.
  pose proof (inv_size _ _ _ HI) as Is.
  unfold Semaphore.NewWeighted.
  destruct (sm s) as [sz cu ws]. simpl in *.
  destruct (orch s); try discriminate Hd; simpl in *; subst; f_equal; lia.
Qed.

(** C3: in every reachable state no goroutine has panicked (so no release
    exceeded what was held), every worker has released at most once, a worker
    that has exited has released exactly once, and a worker released exactly
    once iff it no longer holds its token; an [EvError] event leaves the
    worker in its loop with the semaphore untouched; what a worker that has
    exited did is what [worker] yields on the events it received, with one
    release in it.  For the body of the worker goroutine: fed any number of
    errors and then [EvDone] it ends with one [ARelease] followed by
    [AWgDone], and whatever the events, the number of releases is one if the
    loop returned and zero if it has not.  The releases are those of the
    semaphore: its count is the number of workers that have not yet released,
    plus one while the main goroutine has a token for the worker it is about
    to start; a worker standing at its release can always execute it, without
    panic, and [sm.Release(1)] then takes one off that number, either by
    lowering the count by one or, when the main goroutine is queued in
    [sm.Acquire], by handing the token to it, the count unchanged; and once
    [wg.Wait()] has returned the semaphore is as [NewWeighted] made it, with
    no token out. *)
Theorem token_released_exactly_once
  (c : Context) (job : VMJob) (t : list Label) (s : State) :
  reachable c job t s ->
  panicked s = false /\
  (forall i, (releases i t <= 1)%nat) /\
  (forall i w, nth_error (workers s) i = Some w ->
     (wpc w = WExited -> releases i t = 1%nat) /\
     (releases i t = 1%nat <-> holds_token w = false)) /\
  (forall i, nth_error (workers s) i = None -> releases i t = O) /\
  (forall i err s', step c job s (LRecv i (EvError err)) = Some s' ->
     sm s' = sm s /\
     exists w, nth_error (workers s') i = Some w /\ wpc w = WSelect) /\
  (forall i w, nth_error (workers s) i = Some w -> wpc w = WExited ->
     worker_actions i (conf w) t = fst (worker (conf w) (worker_events i t)) /\
     release_actions (worker_actions i (conf w) t) = 1%nat) /\
  (forall conf errs rest,
     worker conf (map EvError errs ++ EvDone :: rest)%list
     = ((ARunVM conf
          :: map (fun err => ALog {| log_level := ErrorLevel;
                                     log_vm := BoxName conf;
                                     log_msg := err |}) errs
          ++ [ALog {| log_level := InfoLevel; log_vm := BoxName conf;
                      log_msg := "Job Finished." |};
              ARelease; AWgDone])%list,
        true)) /\
  (forall conf evs,
     release_actions (fst (worker conf evs))
     = if snd (worker conf evs) then 1%nat else O) /\
  Semaphore.cur (sm s) = count holds_token (workers s) + token_in_hand (orch s) /\
  (forall i w, nth_error (workers s) i = Some w -> wpc w = WRelease ->
     exists s',
       step c job s (LRelease i) = Some s' /\
       panicked s' = false /\
       nth_error (workers s') i = Some {| conf := conf w; wpc := WWgDone |} /\
       (forall j, j <> i -> nth_error (workers s') j = nth_error (workers s) j) /\
       Semaphore.size (sm s') = Semaphore.size (sm s) /\
       Semaphore.waiters (sm s') = [] /\
       match orch s with
       | OQueued j image rest =>
           orch s' = OGo j image rest /\
           Semaphore.cur (sm s') = Semaphore.cur (sm s)
       | _ => orch s' = orch s /\ Semaphore.cur (sm s') = Semaphore.cur (sm s) - 1
       end /\
       count holds_token (workers s') = count holds_token (workers s) - 1) /\
  (dispatching (orch s) = false ->
   sm s = Semaphore.NewWeighted (GlobalInt c "parallelism")).
Proof.
  intros Hr.
  destruct (reachable_invariant _ _ _ _ Hr) as [HI HT].
  pose proof (tinv_releases _ _ HT) as Tr.
  split; [exact (inv_panicked _ _ _ HI)|].
  split.
  { intros i. rewrite Tr. destruct (nth_error (workers s) i) as [w|];
      [destruct (holds_token w)|]; lia. }
  split.
  { intros i w Hw. rewrite Tr, Hw. split.
    - intros Hpc. unfold holds_token. rewrite Hpc. reflexivity.
    - destruct (holds_token w); split; intros H; congruence. }
  split.
  { intros i Hn. rewrite Tr, Hn. reflexivity. }
  split.
  { intros i err s' Hs. unfold step in Hs.
    rewrite (inv_panicked _ _ _ HI) in Hs.
    destruct (nth_error (workers s) i) as [[cf pc]|] eqn:Ew; [|discriminate].
    destruct pc; try discriminate. injection Hs as <-.
    split; [reflexivity|]. unfold set_wpc. simpl.
    rewrite nth_error_upd, Nat.eqb_refl, Ew. simpl. eauto. }
  split.
  { intros i w Hw Hpc.
    pose proof (reachable_worker_view _ _ _ _ Hr i) as Hv.
    rewrite Hw in Hv. unfold worker_view in Hv. rewrite Hpc in Hv.
    destruct Hv as [Ha Hret]. split; [exact Ha|].
    rewrite Ha, worker_releases_once, Hret. reflexivity. }
  split.
  { intros conf errs rest. unfold worker.
    rewrite worker_loop_errors_then_done. rewrite <- app_assoc. reflexivity. }
  split.
  { intros conf evs. apply worker_releases_once. }
  split; [exact (inv_cur _ _ _ HI)|].
  split.
  { intros i w Hw Hpc. exact (release_returns_token _ _ _ _ _ HI Hw Hpc). }
  exact (joined_semaphore_free _ _ _ HI).
Qed.

Lemma sample_run_reachable :
  reachable (sample_context 2 "") sample_job sample_run sample_final_state.
Proof. vm_compute. reflexivity. Qed.

Lemma sample_releasing_reachable :
  reachable (sample_context 2 "") sample_job sample_releasing sample_releasing_state.
Proof. vm_compute. reflexivity. Qed.

Lemma token_released_exactly_once_witness :
  (releases 0 sample_run = 1%nat /\ releases 1 sample_run = 1%nat /\
   releases 2 sample_run = 1%nat) /\
  sm sample_final_state = Semaphore.NewWeighted 2 /\
  exists s',
    step (sample_context 2 "") sample_job sample_releasing_state (LRelease 0)
    = Some s' /\
    orch s' = OGo 2 "ubuntu" [] /\ Semaphore.cur (sm s') = 2.
Proof.
  split; [|split].
  - destruct (token_released_exactly_once _ _ _ _ sample_run_reachable)
      as (_ & _ & H & _).
    split; [|split].
    + exact (proj1 (H 0%nat _ eq_refl) eq_refl).
    + exact (proj1 (H 1%nat _ eq_refl) eq_refl).
    + exact (proj1 (H 2%nat _ eq_refl) eq_refl).
  - destruct (token_released_exactly_once _ _ _ _ sample_run_reachable)
      as (_ & _ & _ & _ & _ & _ & _ & _ & _ & _ & H).
    exact (H eq_refl).
  - destruct (token_released_exactly_once _ _ _ _ sample_releasing_reachable)
      as (_ & _ & _ & _ & _ & _ & _ & _ & _ & H & _).
    destruct (H 0%nat _ eq_refl eq_refl) as (s' & Hs & _ & _ & _ & _ & _ & Ho & _).
    exists s'. split; [exact Hs|]. exact Ho.
Defined.

(** ** Shutdown *)

Lemma nth_error_last {A} (l : list A) (x : A) :
  nth_error (l ++ [x])%list (List.length l) = Some x.
Proof.
  rewrite nth_error_app2 by lia. rewrite Nat.sub_diag. reflexivity.
Qed.

Lemma serial_one_exec (c : Context) (job : VMJob) (P : Z) (ws : list Worker)
  (image : string) (rest : list string) :
  1 <= P ->
  exec c job (idle P ws (List.length ws) (image :: rest)) (serial_one (List.length ws))
  = Some (idle P (ws ++ [{| conf := mkConf c job (List.length ws) image;
                            wpc := WExited |}])%list
            (S (List.length ws)) rest).
Proof.
  intros HP. unfold serial_one, idle.
  assert (HA : (1 <=? P - 0) = true) by (apply Z.leb_le; lia).
  unfold exec, step, set_wpc, Semaphore.Acquire, Semaphore.Release. simpl.
  rewrite HA. simpl.
  repeat (progress (rewrite ?nth_error_last, ?upd_last; simpl)).
  reflexivity.
Qed.

Lemma serial_exec (c : Context) (job : VMJob) (P : Z) (rest : list string) :
  1 <= P \/ rest = [] ->
  forall ws,
  exists ws',
    exec c job (idle P ws (List.length ws) rest)
      (serial (List.length ws) (List.length rest))
    = Some (idle P ws' (List.length ws') []).
Proof.
  intros [HP|Hnil].
  2: { subst rest. intros ws. exists ws. reflexivity. }
  - induction rest as [|image rest IH]; intros ws;
      cbn [List.length serial].
    + exists ws. reflexivity.
    + specialize (IH (ws ++ [{| conf := mkConf c job (List.length ws) image;
                                wpc := WExited |}])%list).
      destruct IH as (ws' & IH). exists ws'.
      rewrite exec_app, serial_one_exec by exact HP.
      rewrite length_app, Nat.add_1_r in IH. exact IH.
Qed.

Lemma shutdown_exec (c : Context) (job : VMJob) (P : Z) (ws : list Worker) (i : nat) :
  exists s,
    exec c job (idle P ws i []) shutdown = Some s /\ orch s = OReturned.
Proof.
  eexists. split; reflexivity.
Qed.

(** With room for at least one worker, or with no image to run on, [runApp]
    can run to its end. *)
Lemma runApp_can_return (c : Context) (job : VMJob) :
  1 <= GlobalInt c "parallelism" \/ Images job = [] ->
  exists s,
    reachable c job (serial 0 (List.length (Images job)) ++ shutdown)%list s /\
    orch s = OReturned.
Proof.
  intros HP.
  destruct (serial_exec c job _ (Images job) HP []) as (ws & Hd).
  destruct (shutdown_exec c job (GlobalInt c "parallelism") ws (List.length ws))
    as (s & Hs & Ho).
  exists s. split; [|exact Ho].
  unfold reachable. rewrite exec_app.
  change (init c job) with (idle (GlobalInt c "parallelism") [] 0 (Images job)).
  simpl List.length in Hd. rewrite Hd. exact Hs.
Qed.

Lemma returned_is_final (c : Context) (job : VMJob) (s : State) (l : Label) :
  Inv c job s -> orch s = OReturned -> step c job s l = None.
Proof.
  intros HI Ho.
  destruct (step c job s l) as [s'|] eqn:Hs; [exfalso | reflexivity].
  unfold step in Hs. rewrite (inv_panicked _ _ _ HI) in Hs.
  pose proof (inv_joined _ _ _ HI) as Ij. pose proof (inv_drained _ _ _ HI) as Id.
  rewrite Ho in *. simpl in *. specialize (Ij eq_refl).
  destruct l; try discriminate; break_step Hs; try discriminate;
    try member_facts; try lia.
Qed.

(** C2: in every reachable state [job.Done()] has been called at most once,
    and once exactly when [runApp] has returned.  When it has been called,
    the shutdown steps so far are, in this order, the return of [wg.Wait()],
    [close(resCh)], the aggregator's [resWg.Done()], the return of
    [resWg.Wait()] and [job.Done()], each once; every image has a worker and
    every worker has called [wg.Done()]; no step of the dispatch loop or of a
    worker comes after the return of [wg.Wait()]; no receive, [job.Process]
    or end of range comes after the aggregator's [resWg.Done()]; the records
    processed are the records sent, in the same order; the channel is closed
    and the aggregator has exited; and no goroutine has a further step.  With
    a parallelism of at least one, or with no image at all, there is a run in
    which [runApp] returns. *)
Theorem shutdown_ordering (c : Context) (job : VMJob) :
  (forall t s, reachable c job t s ->
     (job_done_calls t <= 1)%nat /\
     (job_done_calls t = 1%nat <-> orch s = OReturned) /\
     (job_done_calls t = 1%nat ->
        milestones t = [LWgWait; LClose; LResWgDone; LResWgWait; LJobDone] /\
        List.length (workers s) = List.length (Images job) /\
        (forall i, (i < List.length (Images job))%nat -> wg_dones i t = 1%nat) /\
        quiet_after is_wg_wait is_dispatch_or_worker t = true /\
        quiet_after is_res_wg_done is_agg_loop t = true /\
        processed t = sent t /\
        closed s = true /\
        agg s = AExited /\
        forall l, step c job s l = None)) /\
  (1 <= GlobalInt c "parallelism" \/ Images job = [] ->
   exists t s, reachable c job t s /\ orch s = OReturned /\
               job_done_calls t = 1%nat).
Proof.
  assert (Hmain : forall t s, reachable c job t s ->
            (job_done_calls t = 1%nat <-> orch s = OReturned)).
  { intros t s Hr. destruct (reachable_invariant _ _ _ _ Hr) as [_ HT].
    rewrite (tinv_job_done _ _ HT).
    destruct (orch s); split; intros H; congruence. }
  split.
  - intros t s Hr.
    destruct (reachable_invariant _ _ _ _ Hr) as [HI HT].
    split.
    { rewrite (tinv_job_done _ _ HT). destruct (orch s); lia. }
    split; [exact (Hmain t s Hr)|].
    intros Hd. apply (Hmain t s Hr) in Hd.
    pose proof (inv_drained _ _ _ HI) as Id. rewrite Hd in Id.
    pose proof (inv_joined _ _ _ HI) as Ij. rewrite Hd in Ij.
    specialize (Ij eq_refl).
    assert (Hlen : List.length (workers s) = List.length (Images job)).
    { pose proof (inv_confs _ _ _ HI) as Hc. rewrite Hd in Hc. simpl in Hc.
      rewrite app_nil_r in Hc. apply (f_equal (@List.length _)) in Hc.
      rewrite length_map, range_confs_length in Hc. exact Hc. }
    split.
    { rewrite (tinv_milestones _ _ HT), Hd, Id. reflexivity. }
    split; [exact Hlen|].
    split.
    { intros i Hi. rewrite (tinv_wg_dones _ _ HT).
      destruct (nth_error (workers s) i) as [w|] eqn:Ew.
      - rewrite (count_zero live _ _ _ Ij Ew). reflexivity.
      - apply nth_error_None in Ew. lia. }
    split; [exact (tinv_workers_quiet _ _ HT)|].
    split; [exact (tinv_agg_quiet _ _ HT)|].
    split.
    { rewrite (tinv_sent _ _ HT), Id, app_nil_r. reflexivity. }
    split.
    { rewrite (inv_closed _ _ _ HI), Hd. reflexivity. }
    split; [exact Id|].
    intros l. exact (returned_is_final c job s l HI Hd).
  - intros HP. destruct (runApp_can_return c job HP) as (s & Hr & Ho).
    eexists; exists s. split; [exact Hr|]. split; [exact Ho|].
    apply (Hmain _ s Hr). exact Ho.
Qed.

Lemma shutdown_ordering_witness :
  job_done_calls sample_run = 1%nat /\
  milestones sample_run = [LWgWait; LClose; LResWgDone; LResWgWait; LJobDone] /\
  processed sample_run = sent sample_run.
Proof.
  destruct (proj1 (shutdown_ordering (sample_context 2 "") sample_job)
              sample_run sample_final_state sample_run_reachable)
    as (_ & H1 & H2).
  pose proof (proj2 H1 eq_refl) as Hd.
  destruct (H2 Hd) as (Hm & _ & _ & _ & _ & Hp & _).
  split; [exact Hd|]. split; [exact Hm | exact Hp].
Defined.

(** ** The worker's event loop *)

Lemma worker_loop_returns_iff (conf : VMConfig) (evs : list Event) :
  snd (worker_loop conf evs) = true <-> In EvDone evs.
Proof.
  induction evs as [|e evs IH]; simpl.
  - split; [discriminate | tauto].
  - destruct e; simpl;
      try (destruct (worker_loop conf evs) as [acts r]; simpl in *;
           rewrite IH; split; [intros H; right; exact H
                              | intros [H|H]; [discriminate | exact H]]).
    split; [intros _; left; reflexivity | reflexivity].
Qed.

Lemma worker_loop_continue (conf : VMConfig) (e : Event) (evs : list Event) :
  snd (worker_select conf e) = Continue ->
  worker_loop conf (e :: evs)
  = ((select_actions (worker_select conf e) ++ fst (worker_loop conf evs))%list,
     snd (worker_loop conf evs)).
Proof.
  intros H. simpl. rewrite H. destruct (worker_loop conf evs). reflexivity.
Qed.

Lemma sends_app (a b : list Action) : sends (a ++ b)%list = (sends a ++ sends b)%list.
Proof. unfold sends. apply flat_map_app. Qed.

Lemma sends_worker_actions (i : nat) (cf : VMConfig) (t : list Label) :
  sends (worker_actions i cf t) = sent_by i t.
Proof.
  induction t as [|l t IH]; simpl; [reflexivity|].
  change (worker_actions i cf (l :: t))
    with (worker_actions i cf [l] ++ worker_actions i cf t)%list.
  change (sent_by i (l :: t)) with (sent_by i [l] ++ sent_by i t)%list.
  rewrite sends_app, IH. f_equal.
  destruct l; try reflexivity; simpl; destruct (Nat.eqb i i0); reflexivity.
Qed.

Lemma sends_worker_loop (cf : VMConfig) (evs : list Event) :
  sends (fst (worker_loop cf evs)) = cmd_outputs cf evs.
Proof.
  induction evs as [|e evs IH]; simpl; [reflexivity|].
  destruct e; simpl; try reflexivity;
    destruct (worker_loop cf evs) as [la r]; simpl in *; rewrite IH; reflexivity.
Qed.

(** What [resCh <- o] does: the channel is open whenever a worker stands at
    the send, the send is the hand-over of [o] to the goroutine ranging over
    [resCh], and the next thing that goroutine does is [job.Process(o)]. *)
Lemma send_reaches_aggregator (c : Context) (job : VMJob) (s : State)
  (i : nat) (w : Worker) (o : VMOutput) :
  Inv c job s ->
  nth_error (workers s) i = Some w -> wpc w = WSend o ->
  closed s = false /\
  (agg s = ARange \/ exists o2, agg s = AProcess o2) /\
  (agg s = ARange -> exists s', step c job s (LSend i o) = Some s') /\
  (forall o' s', step c job s (LSend i o') = Some s' ->
     o' = o /\ agg s = ARange /\ agg s' = AProcess o /\ panicked s' = false /\
     nth_error (workers s') i = Some {| conf := conf w; wpc := WSelect |} /\
     step c job s' (LProcess o) = Some (set_agg ARange s') /\
     forall o2 s2, step c job s' (LProcess o2) = Some s2 -> o2 = o).
Proof.
  intros HI Hw Hpc.
  assert (Hl : live w = true) by (unfold live; rewrite Hpc; reflexivity).
  pose proof (count_member live _ _ _ Hw Hl) as Hc.
  pose proof (inv_panicked _ _ _ HI) as Ip.
  assert (Hcl : closed s = false).
  { pose proof (inv_joined _ _ _ HI) as Ij.
    rewrite (inv_closed _ _ _ HI).
    destruct (orch s); simpl in Ij; try reflexivity; specialize (Ij eq_refl); lia. }
  split; [exact Hcl|].
  split.
  { pose proof (inv_agg_closed _ _ _ HI) as Ia.
    destruct (agg s); eauto; congruence. }
  split.
  { intros Ha. unfold step. rewrite Ip, Hw. destruct w as [cf pc]. simpl in Hpc.
    subst pc. rewrite VMOutput_eqb_refl, Hcl, Ha. simpl. eauto. }
  intros o' s' Hs. unfold step in Hs. rewrite Ip, Hw in Hs.
  destruct w as [cf pc]. simpl in Hpc. subst pc.
  destruct (VMOutput_eqb o o') eqn:Eo; simpl in Hs; [|discriminate].
  apply VMOutput_eqb_eq in Eo. subst o'.
  rewrite Hcl in Hs. destruct (agg s) eqn:Ea; try discriminate.
  injection Hs as <-.
  split; [reflexivity|]. split; [reflexivity|]. split; [reflexivity|].
  split; [exact Ip|].
  split.
  { simpl. rewrite nth_error_upd, Nat.eqb_refl, Hw. reflexivity. }
  split.
  { unfold step. simpl. rewrite Ip, VMOutput_eqb_refl. reflexivity. }
  intros o2 s2 H2. unfold step in H2. simpl in H2. rewrite Ip in H2.
  destruct (VMOutput_eqb o o2) eqn:E2; [|discriminate].
  symmetry. apply VMOutput_eqb_eq. exact E2.
Qed.

(** The records a worker has sent, with the one it is about to send, are
    the records due for the events it received. *)
Lemma sent_by_outputs (c : Context) (job : VMJob) (t : list Label) (s : State)
  (i : nat) (w : Worker) :
  reachable c job t s ->
  nth_error (workers s) i = Some w ->
  (sent_by i t ++ in_flight (wpc w))%list
  = cmd_outputs (conf w) (worker_events i t).
Proof.
  intros Hr Hw.
  pose proof (reachable_worker_view _ _ _ _ Hr i) as Hv. rewrite Hw in Hv.
  rewrite <- sends_worker_loop, <- (sends_worker_actions i (conf w)).
  unfold worker_view in Hv.
  destruct (wpc w) eqn:Epc; simpl in_flight; destruct Hv as [Ha Hret];
    rewrite ?app_nil_r.
  - rewrite Ha, Hret. reflexivity.
  - rewrite Ha. reflexivity.
  - apply (f_equal sends) in Ha. rewrite sends_app in Ha. exact Ha.
  - rewrite Ha. reflexivity.
  - rewrite Ha.
    change (ARunVM (conf w) :: fst (worker_loop (conf w) (worker_events i t))
              ++ [ARelease])%list
      with ([ARunVM (conf w)] ++ fst (worker_loop (conf w) (worker_events i t))
              ++ [ARelease])%list.
    rewrite !sends_app. simpl. rewrite app_nil_r. reflexivity.
  - rewrite Ha. unfold worker.
    destruct (worker_loop (conf w) (worker_events i t)) as [la r]. simpl.
    change (ARunVM (conf w) :: la ++ (if r then [ARelease; AWgDone] else []))%list
      with ([ARunVM (conf w)] ++ la ++ (if r then [ARelease; AWgDone] else []))%list.
    rewrite !sends_app. destruct r; simpl; rewrite app_nil_r; reflexivity.
Qed.

(** C4: on [EvError] the worker logs the text at error level and goes on
    with the loop, nothing else happening; [EvDone] is the only event on which
    the pass through the [select] returns, and the loop has returned exactly
    when [EvDone] was among the events received; on [EvCmdOutput] the line is
    logged and a [VMOutput] carrying it is sent on the result channel, after
    which the loop goes on.  In a run, what a worker has done so far is what
    this loop yields on the events the worker received, and its loop has
    returned exactly when [EvDone] is among them; the records it has sent on
    [resCh], with the one it is about to send, are one per line of command
    output it received, in order.  While a worker stands at the send the
    channel is open and its reader has not left its loop; the send is the
    hand-over of that very record to the goroutine ranging over [resCh],
    whose next step is [job.Process] of that record and of no other, and the
    worker is back in its [select].  The records passed to [job.Process],
    with the one the reader holds, are the records sent, in order. *)
Theorem worker_loop_on_events (cf : VMConfig) :
  (forall err evs,
     worker_select cf (EvError err)
     = ({| log_level := ErrorLevel; log_vm := BoxName cf; log_msg := err |},
        None, Continue) /\
     after_select (worker_select cf (EvError err)) = WSelect /\
     worker_loop cf (EvError err :: evs)
     = (ALog {| log_level := ErrorLevel; log_vm := BoxName cf; log_msg := err |}
          :: fst (worker_loop cf evs),
        snd (worker_loop cf evs))) /\
  (forall e, snd (worker_select cf e) = Return <-> e = EvDone) /\
  (forall e, after_select (worker_select cf e) = WRelease <-> e = EvDone) /\
  (forall evs, snd (worker_loop cf evs) = true <-> In EvDone evs) /\
  (forall l evs,
     worker_select cf (EvCmdOutput l)
     = ({| log_level := InfoLevel; log_vm := BoxName cf; log_msg := l |},
        Some {| VM := BoxName cf; Line := l |}, Continue) /\
     after_select (worker_select cf (EvCmdOutput l))
     = WSend {| VM := BoxName cf; Line := l |} /\
     worker_loop cf (EvCmdOutput l :: evs)
     = (ALog {| log_level := InfoLevel; log_vm := BoxName cf; log_msg := l |}
          :: ASend {| VM := BoxName cf; Line := l |}
          :: fst (worker_loop cf evs),
        snd (worker_loop cf evs))) /\
  (forall c job t s i w,
     reachable c job t s ->
     nth_error (workers s) i = Some w ->
     conf w = cf ->
     worker_view cf (wpc w) (worker_events i t) (worker_actions i cf t) /\
     (loop_returned w = true <-> In EvDone (worker_events i t))) /\
  (forall c job t s i w,
     reachable c job t s ->
     nth_error (workers s) i = Some w ->
     conf w = cf ->
     (sent_by i t ++ in_flight (wpc w))%list = cmd_outputs cf (worker_events i t) /\
     (forall l s', step c job s (LRecv i (EvCmdOutput l)) = Some s' ->
        nth_error (workers s') i
        = Some {| conf := cf; wpc := WSend {| VM := BoxName cf; Line := l |} |}) /\
     (forall o, wpc w = WSend o ->
        closed s = false /\
        (agg s = ARange \/ exists o2, agg s = AProcess o2) /\
        (agg s = ARange -> exists s', step c job s (LSend i o) = Some s') /\
        (forall o' s', step c job s (LSend i o') = Some s' ->
           o' = o /\ agg s = ARange /\ agg s' = AProcess o /\
           panicked s' = false /\
           nth_error (workers s') i = Some {| conf := cf; wpc := WSelect |} /\
           step c job s' (LProcess o) = Some (set_agg ARange s') /\
           forall o2 s2, step c job s' (LProcess o2) = Some s2 -> o2 = o))) /\
  (forall c job t s,
     reachable c job t s ->
     sent t = (processed t ++ match agg s with AProcess o => [o] | _ => [] end)%list).
Proof.
  split; [|split; [|split; [|split; [|split; [|split; [|split]]]]]].
  - intros err evs. split; [reflexivity|]. split; [reflexivity|].
    rewrite worker_loop_continue by reflexivity. reflexivity.
  - intros e. destruct e; simpl; split; intros H; try discriminate; reflexivity.
  - intros e. destruct e; simpl; split; intros H; try discriminate; reflexivity.
  - apply worker_loop_returns_iff.
  - intros l evs. split; [reflexivity|]. split; [reflexivity|].
    rewrite worker_loop_continue by reflexivity. reflexivity.
  - intros c job t s i w Hr Hw <-.
    pose proof (reachable_worker_view _ _ _ _ Hr i) as Hv.
    rewrite Hw in Hv. split; [exact Hv|].
    rewrite <- (worker_loop_returns_iff (conf w)).
    unfold worker_view in Hv. unfold loop_returned.
    destruct (wpc w); destruct Hv as [Ha Hret];
      try (rewrite Hret; split; congruence).
    + rewrite Hret. simpl. split; discriminate.
    + unfold worker in Hret.
      destruct (worker_loop (conf w) (worker_events i t)) as [la r].
      simpl in *. rewrite Hret. split; reflexivity.
  - intros c job t s i w Hr Hw <-.
    destruct (reachable_invariant _ _ _ _ Hr) as [HI _].
    split; [exact (sent_by_outputs _ _ _ _ _ _ Hr Hw)|].
    split.
    + intros l s' Hs. unfold step in Hs.
      rewrite (inv_panicked _ _ _ HI), Hw in Hs.
      destruct w as [cf pc]. destruct pc; try discriminate.
      injection Hs as <-. simpl.
      rewrite nth_error_upd, Nat.eqb_refl, Hw. reflexivity.
    + intros o Hpc. exact (send_reaches_aggregator _ _ _ _ _ _ HI Hw Hpc).
  - intros c job t s Hr.
    destruct (reachable_invariant _ _ _ _ Hr) as [_ HT].
    exact (tinv_sent _ _ HT).
Qed.

Lemma sample_sending_reachable :
  reachable (sample_context 2 "") sample_job sample_sending sample_sending_state.
Proof. vm_compute. reflexivity. Qed.

Lemma worker_loop_on_events_witness :
  worker_loop (mkConf (sample_context 2 "") sample_job 0 "ubuntu")
    [EvError "ssh: timeout"; EvDone]
  = ([ALog {| log_level := ErrorLevel; log_vm := "ubuntu"; log_msg := "ssh: timeout" |};
      ALog {| log_level := InfoLevel; log_vm := "ubuntu"; log_msg := "Job Finished." |}],
     true) /\
  exists s',
    step (sample_context 2 "") sample_job sample_sending_state
      (LSend 0 {| VM := "ubuntu"; Line := "5.4.0" |}) = Some s' /\
    agg s' = AProcess {| VM := "ubuntu"; Line := "5.4.0" |}.
Proof.
  destruct (worker_loop_on_events (mkConf (sample_context 2 "") sample_job 0 "ubuntu"))
    as (H & _ & _ & _ & _ & _ & Hsend & _).
  split.
  - destruct (H "ssh: timeout" [EvDone]) as (_ & _ & E).
    rewrite E. reflexivity.
  - destruct (Hsend _ _ _ _ 0%nat _ sample_sending_reachable eq_refl eq_refl)
      as (_ & _ & Hs).
    destruct (Hs {| VM := "ubuntu"; Line := "5.4.0" |} eq_refl)
      as (_ & _ & Hen & Hdo).
    destruct (Hen eq_refl) as (s' & Hstep).
    exists s'. split; [exact Hstep|].
    exact (proj1 (proj2 (proj2 (Hdo _ _ Hstep)))).
Defined.

(** C5, as the code has it: an [EvInfo] line is logged at debug level and an
    [EvDebug] line at trace level, each one level below the name of its
    channel; neither is sent on the result channel, and the loop goes on. *)
Theorem info_and_debug_logged_one_level_down (conf : VMConfig) (l : string) :
  worker_select conf (EvInfo l)
  = ({| log_level := DebugLevel; log_vm := BoxName conf; log_msg := l |},
     None, Continue) /\
  worker_select conf (EvDebug l)
  = ({| log_level := TraceLevel; log_vm := BoxName conf; log_msg := l |},
     None, Continue) /\
  (forall evs,
     worker_loop conf (EvInfo l :: evs)
     = (ALog {| log_level := DebugLevel; log_vm := BoxName conf; log_msg := l |}
          :: fst (worker_loop conf evs),
        snd (worker_loop conf evs)) /\
     worker_loop conf (EvDebug l :: evs)
     = (ALog {| log_level := TraceLevel; log_vm := BoxName conf; log_msg := l |}
          :: fst (worker_loop conf evs),
        snd (worker_loop conf evs))).
Proof.
  split; [reflexivity|]. split; [reflexivity|].
  intros evs. rewrite !worker_loop_continue by reflexivity.
  split; reflexivity.
Qed.

(** The line of an [EvInfo] event is not logged at info level, nor the line
    of an [EvDebug] event at debug level. *)
Lemma info_event_not_logged_at_info_level :
  log_level (fst (fst (worker_select
                         (mkConf (sample_context 2 "") sample_job 0 "ubuntu")
                         (EvInfo "booting")))) <> InfoLevel /\
  log_level (fst (fst (worker_select
                         (mkConf (sample_context 2 "") sample_job 0 "ubuntu")
                         (EvDebug "mounting")))) <> DebugLevel /\
  ~ (forall conf l,
       log_level (fst (fst (worker_select conf (EvInfo l)))) = InfoLevel /\
       log_level (fst (fst (worker_select conf (EvDebug l)))) = DebugLevel).
Proof.
  split; [discriminate|]. split; [discriminate|].
  intros H.
  destruct (H (mkConf (sample_context 2 "") sample_job 0 "ubuntu") "booting")
    as [H1 _].
  discriminate H1.
Qed.

(** ** The identifier of a VM *)

Lemma worker_select_box_name (ci cj : VMConfig) (e : Event) :
  BoxName ci = BoxName cj -> worker_select ci e = worker_select cj e.
Proof.
  intros H. destruct e; simpl; rewrite H; reflexivity.
Qed.

Lemma worker_loop_box_name (ci cj : VMConfig) (evs : list Event) :
  BoxName ci = BoxName cj -> worker_loop ci evs = worker_loop cj evs.
Proof.
  intros H. induction evs as [|e evs IH]; simpl; [reflexivity|].
  rewrite (worker_select_box_name ci cj e H), IH. reflexivity.
Qed.

(** ** Instance names and identifiers in a run *)

Lemma reachable_worker_conf (c : Context) (job : VMJob) (t : list Label) (s : State)
  (i : nat) (w : Worker) :
  reachable c job t s ->
  nth_error (workers s) i = Some w ->
  exists image, nth_error (Images job) i = Some image /\ conf w = mkConf c job i image.
Proof.
  intros Hr Hw.
  destruct (reachable_invariant _ _ _ _ Hr) as [HI _].
  pose proof (inv_confs _ _ _ HI) as Hc.
  assert (Hn : nth_error (range_confs c job 0 (Images job)) i = Some (conf w)).
  { rewrite <- Hc. rewrite nth_error_app1.
    - rewrite nth_error_map, Hw. reflexivity.
    - rewrite length_map. apply nth_error_Some. congruence. }
  rewrite nth_error_range_confs in Hn. simpl in Hn.
  destruct (nth_error (Images job) i) as [image|]; [|discriminate].
  simpl in Hn. injection Hn as Hn. exists image. split; [reflexivity | congruence].
Qed.

Lemma after_select_send (cf : VMConfig) (e : Event) (o : VMOutput) :
  after_select (worker_select cf e) = WSend o -> VM o = BoxName cf.
Proof.
  destruct e; simpl; intros H; try discriminate. injection H as <-. reflexivity.
Qed.

(** A step keeps the configuration of every worker, and a worker comes to
    stand at a send either because it stood there or by receiving an event. *)
Lemma step_worker_before (c : Context) (job : VMJob) (s s' : State) (l : Label)
  (i : nat) (w' : Worker) :
  step c job s l = Some s' ->
  nth_error (workers s') i = Some w' ->
  (nth_error (workers s) i = None /\ wpc w' = WRunVM) \/
  exists w, nth_error (workers s) i = Some w /\ conf w' = conf w /\
            (wpc w' = wpc w \/
             (exists e, l = LRecv i e /\
                        wpc w' = after_select (worker_select (conf w) e)) \/
             (forall o, wpc w' <> WSend o)).
Proof.
  intros Hs Hw. unfold step in Hs.
  destruct (panicked s); [discriminate|].
  destruct l; break_step Hs; injection Hs as <-;
    unfold set_wpc in Hw; simpl in Hw;
    try (right; exists w'; split; [exact Hw | split; [reflexivity | left; reflexivity]]);
    try (rewrite nth_error_upd in Hw;
         match type of Hw with
         | context [Nat.eqb ?a ?b] => destruct (Nat.eqb_spec a b) as [->|Hne]
         end;
         [ match goal with
           | E : nth_error (workers s) _ = Some _ |- _ =>
               rewrite E in Hw; simpl in Hw; injection Hw as <-;
               right; eexists; split; [exact E|]; split; [reflexivity|];
               simpl; try (right; right; intros; discriminate);
               try (right; left; eexists; split; reflexivity)
           end
         | right; exists w'; split; [exact Hw | split; [reflexivity | left; reflexivity]] ]).
  rewrite nth_error_snoc in Hw.
  destruct (Nat.ltb_spec i (List.length (workers s))) as [Hlt|Hge].
  - right; exists w'; split; [exact Hw | split; [reflexivity | left; reflexivity]].
  - left. split; [apply nth_error_None; exact Hge|].
    destruct (Nat.eqb i (List.length (workers s))); [|discriminate].
    injection Hw as <-. reflexivity.
Qed.

Lemma step_worker_after (c : Context) (job : VMJob) (s s' : State) (l : Label)
  (i : nat) (w : Worker) :
  step c job s l = Some s' ->
  nth_error (workers s) i = Some w ->
  exists w', nth_error (workers s') i = Some w' /\ conf w' = conf w.
Proof.
  intros Hs Hw. unfold step in Hs.
  destruct (panicked s); [discriminate|].
  destruct l; break_step Hs; injection Hs as <-;
    unfold set_wpc; simpl;
    try (exists w; split; [exact Hw | reflexivity]);
    try (rewrite nth_error_upd, Hw;
         match goal with
         | |- context [Nat.eqb ?a ?b] => destruct (Nat.eqb a b)
         end; simpl; eexists; split; reflexivity).
  exists w. split; [|reflexivity].
  rewrite nth_error_app1; [exact Hw | apply nth_error_Some; congruence].
Qed.

Lemma reachable_sends (c : Context) (job : VMJob) (t : list Label) :
  forall s, reachable c job t s ->
    (forall i w o, nth_error (workers s) i = Some w -> wpc w = WSend o ->
                   VM o = BoxName (conf w)) /\
    (forall i o, In (LSend i o) t ->
                 exists w, nth_error (workers s) i = Some w /\
                           VM o = BoxName (conf w)).
Proof.
  induction t as [|l t IH] using rev_ind; intros s H.
  - unfold reachable in H. simpl in H. injection H as <-. split.
    + intros [|i] w o Hw; discriminate.
    + intros i o [].
  - apply reachable_snoc in H as (s0 & Hr & Hs).
    destruct (IH _ Hr) as [IH1 IH2]. split.
    + intros i w' o Hw Hpc.
      destruct (step_worker_before _ _ _ _ _ _ _ Hs Hw)
        as [[_ Hrun]|(w & Hw0 & Hcf & [Hsame|[(e & _ & Hsel)|Hno]])].
      * congruence.
      * rewrite Hcf. apply (IH1 i w o Hw0). congruence.
      * rewrite Hcf. apply (after_select_send _ e). congruence.
      * exfalso. exact (Hno o Hpc).
    + intros i o Hin. apply in_app_or in Hin as [Hin|[Hin|[]]].
      * destruct (IH2 i o Hin) as (w & Hw & Hvm).
        destruct (step_worker_after _ _ _ _ _ _ _ Hs Hw) as (w' & Hw' & Hcf).
        exists w'. split; [exact Hw' | congruence].
      * subst l.
        assert (exists w, nth_error (workers s0) i = Some w /\ wpc w = WSend o)
          as (w & Hw & Hpc).
        { unfold step in Hs. destruct (panicked s0); [discriminate|].
          destruct (nth_error (workers s0) i) as [[cf pc]|]; [|discriminate].
          destruct pc as [| |o'| | |]; try discriminate.
          destruct (VMOutput_eqb o' o) eqn:E; [|discriminate].
          apply VMOutput_eqb_eq in E. subst o'.
          eexists; split; reflexivity. }
        destruct (step_worker_after _ _ _ _ _ _ _ Hs Hw) as (w' & Hw' & Hcf).
        exists w'. split; [exact Hw'|]. rewrite Hcf. exact (IH1 i w o Hw Hpc).
Qed.

(** C7: the instance name built in iteration [i] for an image is
    ["/tmp/" ++ image ++ "-" ++ i]; the names built in two different
    iterations differ, whatever the two images are (the same image included);
    hence any two workers of a run have different instance names. *)
Theorem instance_names_distinct (c : Context) (job : VMJob) :
  (forall i image,
     Name (mkConf c job i image)
     = "/tmp/" ++ image ++ "-" ++ GoInt.fmt_d (Z.of_nat i)) /\
  (forall i j image_i image_j,
     i <> j -> Name (mkConf c job i image_i) <> Name (mkConf c job j image_j)) /\
  (forall images i j ci cj,
     nth_error (range_confs c job 0 images) i = Some ci ->
     nth_error (range_confs c job 0 images) j = Some cj ->
     i <> j -> Name ci <> Name cj) /\
  (forall t s i j wi wj,
     reachable c job t s ->
     nth_error (workers s) i = Some wi ->
     nth_error (workers s) j = Some wj ->
     i <> j -> Name (conf wi) <> Name (conf wj)).
Proof.
  assert (Hmk : forall i j image_i image_j,
            i <> j -> Name (mkConf c job i image_i) <> Name (mkConf c job j image_j)).
  { intros i j a b Hne H. apply Hne. exact (vm_name_index_inj _ _ _ _ H). }
  split; [reflexivity|]. split; [exact Hmk|]. split.
  - intros images i j ci cj. rewrite !nth_error_range_confs. simpl.
    destruct (nth_error images i) as [a|]; [|discriminate].
    destruct (nth_error images j) as [b|]; [|discriminate].
    simpl. intros Hi Hj Hne. injection Hi as <-. injection Hj as <-.
    apply Hmk. exact Hne.
  - intros t s i j wi wj Hr Hi Hj Hne.
    destruct (reachable_worker_conf _ _ _ _ _ _ Hr Hi) as (a & _ & ->).
    destruct (reachable_worker_conf _ _ _ _ _ _ Hr Hj) as (b & _ & ->).
    apply Hmk. exact Hne.
Qed.

Lemma instance_names_distinct_witness :
  Name (mkConf (sample_context 2 "") sample_job 0 "ubuntu")
  <> Name (mkConf (sample_context 2 "") sample_job 2 "ubuntu").
Proof.
  exact (proj1 (proj2 (instance_names_distinct (sample_context 2 "") sample_job))
           0%nat 2%nat "ubuntu" "ubuntu" ltac:(discriminate)).
Defined.

(** C10: in a run, every record a worker has sent on the result channel
    carries the image name of that worker as its identifier, and so does
    every line a worker logs and every record it would send.  Two workers
    started for the same image have different instance names, and yet every
    event yields the same log line and the same record in both, so that for
    the same events the two loops emit the same. *)
Theorem vm_identifier_is_image_name
  (c : Context) (job : VMJob) (t : list Label) (s : State) :
  reachable c job t s ->
  (forall i o, In (LSend i o) t -> nth_error (Images job) i = Some (VM o)) /\
  (forall i w e,
     nth_error (workers s) i = Some w ->
     nth_error (Images job) i
     = Some (log_vm (fst (fst (worker_select (conf w) e)))) /\
     (forall o, snd (fst (worker_select (conf w) e)) = Some o ->
                nth_error (Images job) i = Some (VM o))) /\
  (forall i j wi wj,
     nth_error (workers s) i = Some wi ->
     nth_error (workers s) j = Some wj ->
     i <> j ->
     nth_error (Images job) i = nth_error (Images job) j ->
     Name (conf wi) <> Name (conf wj) /\
     (forall e, worker_select (conf wi) e = worker_select (conf wj) e) /\
     (forall evs, worker_loop (conf wi) evs = worker_loop (conf wj) evs)).
Proof.
  intros Hr. split; [|split].
  - intros i o Hin.
    destruct (proj2 (reachable_sends _ _ _ _ Hr) i o Hin) as (w & Hw & Hvm).
    destruct (reachable_worker_conf _ _ _ _ _ _ Hr Hw) as (image & Hi & Hc).
    rewrite Hvm, Hc. exact Hi.
  - intros i w e Hw.
    destruct (reachable_worker_conf _ _ _ _ _ _ Hr Hw) as (image & Hi & ->).
    split.
    + destruct e; exact Hi.
    + intros o Ho. destruct e; simpl in Ho; try discriminate.
      injection Ho as <-. exact Hi.
  - intros i j wi wj Hi Hj Hne Himg.
    destruct (reachable_worker_conf _ _ _ _ _ _ Hr Hi) as (a & Ha & Hci).
    destruct (reachable_worker_conf _ _ _ _ _ _ Hr Hj) as (b & Hb & Hcj).
    assert (Hab : a = b) by congruence.
    assert (Hbox : BoxName (conf wi) = BoxName (conf wj)).
    { rewrite Hci, Hcj. simpl. exact Hab. }
    split; [|split].
    + rewrite Hci, Hcj. intros H. apply Hne. exact (vm_name_index_inj _ _ _ _ H).
    + intros e. apply worker_select_box_name. exact Hbox.
    + intros evs. apply worker_loop_box_name. exact Hbox.
Qed.

Lemma vm_identifier_is_image_name_witness :
  nth_error (Images sample_job) 0 = Some "ubuntu" /\
  Name (mkConf (sample_context 2 "") sample_job 0 "ubuntu")
  <> Name (mkConf (sample_context 2 "") sample_job 2 "ubuntu") /\
  worker_select (mkConf (sample_context 2 "") sample_job 0 "ubuntu")
    (EvCmdOutput "5.4.0")
  = worker_select (mkConf (sample_context 2 "") sample_job 2 "ubuntu")
      (EvCmdOutput "5.4.0").
Proof.
  destruct (vm_identifier_is_image_name _ _ _ _ sample_run_reachable)
    as (H1 & _ & H3).
  split.
  - apply (H1 0%nat {| VM := "ubuntu"; Line := "5.4.0" |}).
    vm_compute. tauto.
  - destruct (H3 0%nat 2%nat
                {| conf := mkConf (sample_context 2 "") sample_job 0 "ubuntu";
                   wpc := WExited |}
                {| conf := mkConf (sample_context 2 "") sample_job 2 "ubuntu";
                   wpc := WExited |}
                eq_refl eq_refl ltac:(discriminate) eq_refl)
      as (Hn & He & _).
    split; [exact Hn | apply He].
Defined.

(** * Further properties *)

(** ** The messages of [validateParameters] *)

Lemma Lookup_command_flags_int (cmd : SubCommand) (value : string -> string) (name : string) :
  match Lookup (command_flags cmd value) name with
  | Some (VInt _) => False
  | _ => True
  end.
Proof.
  unfold command_flags. induction (cmd_flags cmd) as [|k ks IH]; simpl; [exact I|].
  destruct (String.eqb k name); [exact I | exact IH].
Qed.

Lemma Int_command_context (o : Options) (cmd : SubCommand) (value : string -> string)
  (name : string) :
  Int (command_context o cmd value) name = 0.
Proof.
  unfold Int, command_context, app_context. simpl.
  pose proof (Lookup_command_flags_int cmd value name) as H.
  destruct (Lookup (command_flags cmd value) name) as [[s|n|b]|];
    try reflexivity. contradiction.
Qed.

(** X1: the messages of [validateParameters] read the offending values with
    [c.Int], which looks at the flags of the sub-command, and no sub-command
    declares [cpus] or [parallelism]: whatever the values are, the error for
    too many CPUs per VM, the error for too many parallel VMs and the
    warning all report the number 0. *)
Theorem validateParameters_messages_report_zero
  (n : Z) (o : Options) (cmd : SubCommand) (value : string -> string) :
  (forall cmd', In cmd' commands ->
     Lookup (command_flags cmd' value) "cpus" = None /\
     Lookup (command_flags cmd' value) "parallelism" = None) /\
  (n < opt_cpus o ->
   validateParameters n (command_context o cmd value)
   = ([], Some ("number of CPUs for each VM (0) exceeds the number of CPUs available ("
                ++ GoInt.fmt_d n ++ ")"))) /\
  (opt_cpus o <= n -> n < opt_parallelism o ->
   validateParameters n (command_context o cmd value)
   = ([], Some ("number of parallel VMs (0) exceeds the number of CPUs available ("
                ++ GoInt.fmt_d n ++ ")"))) /\
  (opt_cpus o <= n -> opt_parallelism o <= n ->
   n < GoInt.mul (opt_parallelism o) (opt_cpus o) ->
   validateParameters n (command_context o cmd value)
   = ([CPrintf ("warning: number of parallel cpus (cpus * parallelism 0"
                ++ ") exceeds the number of CPUs available ("
                ++ GoInt.fmt_d n ++ ")" ++ String "010" "")],
      None)).
Proof.
  unfold validateParameters.
  rewrite !Int_command_context.
  change (GlobalInt (command_context o cmd value) "cpus") with (opt_cpus o).
  change (GlobalInt (command_context o cmd value) "parallelism")
    with (opt_parallelism o).
  split; [|split; [|split]].
  - intros cmd' H. simpl in H.
    repeat destruct H as [<-|H]; try contradiction; split; reflexivity.
  - intros H. apply Z.ltb_lt in H. rewrite H. reflexivity.
  - intros H1 H2. apply Z.ltb_ge in H1. apply Z.ltb_lt in H2.
    rewrite H1, H2. reflexivity.
  - intros H1 H2 H3. apply Z.ltb_ge in H1, H2. apply Z.ltb_lt in H3.
    rewrite H1, H2, H3. reflexivity.
Qed.

Lemma validateParameters_messages_report_zero_witness :
  validateParameters 4
    (command_context (sample_options 8 2)
       {| cmd_name := "bpf"; cmd_flags := ["commithash"] |} (fun _ => ""))
  = ([], Some "number of CPUs for each VM (0) exceeds the number of CPUs available (4)").
Proof.
  exact (proj1 (proj2 (validateParameters_messages_report_zero 4
                         (sample_options 8 2)
                         {| cmd_name := "bpf"; cmd_flags := ["commithash"] |}
                         (fun _ => "")))
           ltac:(vm_compute; reflexivity)).
Defined.

(** ** Defaults and validation *)

Lemma default_values (n : Z) :
  2 <= n <= GoInt.max_int ->
  defaultParallelism n = n / 2 /\ defaultNumCPUs n = Some (n / (n / 2)) /\
  1 <= n / 2 <= n /\ 1 <= n / (n / 2) <= n /\ n / 2 * (n / (n / 2)) <= n.
Proof.
  intros Hn.
  assert (Hq : n ÷ 2 = n / 2) by (apply Z.quot_div_nonneg; lia).
  assert (Hhalf : 1 <= n / 2 <= n).
  { split; [apply Z.div_le_lower_bound; lia | apply Z.div_le_upper_bound; lia]. }
  assert (Hcpus : 1 <= n / (n / 2) <= n).
  { split; [apply Z.div_le_lower_bound; lia | apply Z.div_le_upper_bound; nia]. }
  assert (Hp : defaultParallelism n = n / 2).
  { unfold defaultParallelism. rewrite Hq. apply wrap_in_range.
    unfold GoInt.in_range, GoInt.min_int, GoInt.max_int in *. lia. }
  split; [exact Hp|]. split; [|split; [exact Hhalf|split; [exact Hcpus|]]].
  - unfold defaultNumCPUs, GoInt.div. rewrite Hp.
    destruct (Z.eqb_spec (n / 2) 0) as [E|E]; [lia|].
    f_equal. rewrite Z.quot_div_nonneg by lia. apply wrap_in_range.
    unfold GoInt.in_range, GoInt.min_int, GoInt.max_int in *. lia.
  - apply Z.mul_div_le. lia.
Qed.

(** X2: on a host with at least two CPUs the flags of [main] get defaults
    (no panic), with a parallelism and a per-VM CPU count of at least one
    each whose product does not exceed the CPUs of the host; run with these
    defaults, [validateParameters] returns nil and prints no warning,
    [initLog] opens no file and leaves the logger on stdout at debug level,
    and [runApp] goes on to build the job. *)
Theorem defaults_pass_validation
  (n : Z) (OpenFile : string -> option string)
  (NewVMJob : Context -> VMJob + string) (sub : FlagSet) (lg : Logger) :
  2 <= n <= GoInt.max_int ->
  exists o,
    default_options n = Some o /\
    1 <= opt_parallelism o <= n /\
    1 <= opt_cpus o <= n /\
    opt_parallelism o * opt_cpus o <= n /\
    validateParameters n (app_context o sub) = ([], None) /\
    initLog OpenFile (app_context o sub) lg
    = ([], SetLevel DebugLevel (SetOutput Stdout lg), None) /\
    runApp n OpenFile NewVMJob (app_context o sub) lg
    = ([CNewVMJob],
       match NewVMJob (app_context o sub) with
       | inl job => Dispatching (SetLevel DebugLevel (SetOutput Stdout lg)) job
       | inr e => Fatal e
       end).
Proof.
  intros Hn.
  destruct (default_values n Hn) as (Hp & Hc & Hq & Hcpus & Hprod).
  unfold default_options. rewrite Hc, Hp. eexists. split; [reflexivity|].
  cbn [opt_parallelism opt_cpus].
  split; [exact Hq|]. split; [exact Hcpus|]. split; [exact Hprod|].
  assert (Hv : validateParameters n
                 (app_context
                    {| opt_images := ""; opt_provider := "virtualbox";
                       opt_memory := defaultMemory; opt_cpus := n / (n / 2);
                       opt_parallelism := n / 2; opt_log_json := false;
                       opt_log_level := "debug"; opt_log_output := "" |} sub)
               = ([], None)).
  { unfold validateParameters.
    change (GlobalInt (app_context _ sub) "cpus") with (n / (n / 2)).
    change (GlobalInt (app_context _ sub) "parallelism") with (n / 2).
    assert (Hm : GoInt.mul (n / 2) (n / (n / 2)) = n / 2 * (n / (n / 2))).
    { unfold GoInt.mul. apply wrap_in_range.
      unfold GoInt.in_range, GoInt.min_int, GoInt.max_int in *. nia. }
    rewrite Hm.
    destruct (Z.ltb_spec n (n / (n / 2))); [lia|].
    destruct (Z.ltb_spec n (n / 2)); [lia|].
    destruct (Z.ltb_spec n (n / 2 * (n / (n / 2)))); [lia|]. reflexivity. }
  split; [exact Hv|]. split; [reflexivity|].
  unfold runApp. rewrite Hv.
  change (initLog OpenFile (app_context _ sub) lg)
    with (@nil Call, SetLevel DebugLevel (SetOutput Stdout lg), @None string).
  cbv beta iota. destruct (NewVMJob _); reflexivity.
Qed.

Lemma defaults_pass_validation_witness :
  exists o,
    default_options 8 = Some o /\
    validateParameters 8 (app_context o []) = ([], None).
Proof.
  destruct (defaults_pass_validation 8 sample_fs (fun _ => inl sample_job) []
              sample_logger ltac:(unfold GoInt.max_int; lia))
    as (o & H1 & _ & _ & _ & H5 & _).
  exists o. split; [exact H1 | exact H5].
Defined.

(** ** Events that only log *)

Lemma upd_same {A} (f : A -> A) (l : list A) :
  forall i x, nth_error l i = Some x -> f x = x -> upd i f l = l.
Proof.
  induction l as [|y l IH]; intros [|i] x H Hf; simpl in *; try discriminate.
  - injection H as ->. rewrite Hf. reflexivity.
  - rewrite (IH i x H Hf). reflexivity.
Qed.

(** X3: the step in which a worker receives an event touches nothing but the
    position of that worker: the main goroutine, the semaphore, both wait
    groups, the channel, the aggregator and every other worker are as
    before; and when the event is an error, an info or a debug line, the
    whole state is as before, the log line being all that happened. *)
Theorem receive_changes_only_its_worker
  (c : Context) (job : VMJob) (s s' : State) (i : nat) (e : Event) :
  step c job s (LRecv i e) = Some s' ->
  match e with
  | EvError _ | EvInfo _ | EvDebug _ => s' = s
  | _ => True
  end /\
  orch s' = orch s /\ sm s' = sm s /\ wg s' = wg s /\ resWg s' = resWg s /\
  closed s' = closed s /\ agg s' = agg s /\ panicked s' = panicked s /\
  (forall j, j <> i -> nth_error (workers s') j = nth_error (workers s) j) /\
  (exists w w', nth_error (workers s) i = Some w /\
                nth_error (workers s') i = Some w' /\
                wpc w = WSelect /\ conf w' = conf w).
Proof.
  intros Hs. unfold step in Hs.
  destruct (panicked s) eqn:Ep; [discriminate|].
  destruct (nth_error (workers s) i) as [[cf pc]|] eqn:Ew; [|discriminate].
  destruct pc; try discriminate. injection Hs as <-.
  split.
  { destruct e; try exact I; unfold set_wpc, set_workers; simpl;
      rewrite (upd_same _ _ _ _ Ew eq_refl); destruct s; simpl in *;
      subst; reflexivity. }
  repeat (split; [reflexivity|]). split; [exact Ep|]. split.
  - intros j Hj. unfold set_wpc. simpl. rewrite nth_error_upd.
    destruct (Nat.eqb_spec i j); [congruence | reflexivity].
  - eexists; eexists. split; [reflexivity|]. unfold set_wpc. simpl.
    rewrite nth_error_upd, Nat.eqb_refl, Ew. simpl.
    split; [reflexivity|]. split; reflexivity.
Qed.

Lemma receive_changes_only_its_worker_witness :
  exists s',
    step (sample_context 2 "") sample_job sample_contended_state (LRecv 0 EvDone)
    = Some s' /\
    orch s' = orch sample_contended_state /\
    sm s' = sm sample_contended_state.
Proof.
  destruct (step (sample_context 2 "") sample_job sample_contended_state
              (LRecv 0 EvDone)) as [s'|] eqn:H.
  - exists s'. split; [reflexivity|].
    destruct (receive_changes_only_its_worker _ _ _ _ _ _ H) as (_ & Ho & Hs & _).
    split; [exact Ho | exact Hs].
  - vm_compute in H. discriminate H.
Defined.

(** ** The events a worker consumes *)

Lemma select_blocks_done (c : Context) (job : VMJob) (t : list Label) (s : State)
  (i : nat) (w : Worker) :
  reachable c job t s ->
  nth_error (workers s) i = Some w ->
  wpc w = WSelect ->
  ~ In EvDone (worker_events i t).
Proof.
  intros Hr Hw Hpc.
  pose proof (reachable_worker_view _ _ _ _ Hr i) as Hv.
  rewrite Hw in Hv. unfold worker_view in Hv. rewrite Hpc in Hv.
  destruct Hv as [_ Hret]. intros Hin.
  apply (worker_loop_returns_iff (conf w)) in Hin. congruence.
Qed.

(** X4: in a run, a worker consumes no event after [EvDone]: among the
    events it received, [EvDone] occurs at most once and then as the last. *)
Theorem done_is_the_last_event
  (c : Context) (job : VMJob) (t : list Label) (s : State)
  (i : nat) (pre post : list Event) :
  reachable c job t s ->
  worker_events i t = (pre ++ EvDone :: post)%list ->
  post = [] /\ ~ In EvDone pre.
Proof.
  revert s pre post.
  induction t as [|l t IH] using rev_ind; intros s pre post Hr He.
  - destruct pre; discriminate.
  - apply reachable_snoc in Hr as (s0 & Hr & Hs).
    rewrite worker_events_snoc in He.
    assert (Hcases :
              (worker_events i (t ++ [l]) = worker_events i t) \/
              exists e w, l = LRecv i e /\ nth_error (workers s0) i = Some w /\
                          wpc w = WSelect).
    { destruct l; try (left; rewrite worker_events_snoc, app_nil_r; reflexivity).
      destruct (Nat.eqb_spec i i0) as [<-|Hne].
      - right. unfold step in Hs. destruct (panicked s0); [discriminate|].
        destruct (nth_error (workers s0) i) as [[cf pc]|]; [|discriminate].
        destruct pc; try discriminate. eauto 6.
      - left. rewrite worker_events_snoc.
        rewrite (proj2 (Nat.eqb_neq i i0) Hne), app_nil_r. reflexivity. }
    destruct Hcases as [Hsame|(e & w & -> & Hw & Hpc)].
    + rewrite worker_events_snoc in Hsame. rewrite Hsame in He.
      exact (IH _ _ _ Hr He).
    + rewrite Nat.eqb_refl in He.
      pose proof (select_blocks_done _ _ _ _ _ _ Hr Hw Hpc) as Hno.
      destruct post as [|x post] using rev_ind.
      * apply app_inj_tail in He as [He _]. rewrite He in Hno.
        split; [reflexivity | exact Hno].
      * clear IHpost. exfalso. apply Hno.
        change (pre ++ EvDone :: post ++ [x])%list
          with (pre ++ (EvDone :: post) ++ [x])%list in He.
        rewrite app_assoc in He. apply app_inj_tail in He as [He _].
        rewrite He. apply in_or_app. right. left. reflexivity.
Qed.

Lemma done_is_the_last_event_witness :
  ~ In EvDone [EvCmdOutput "5.4.0"; EvError "ssh: timeout"; EvError "ssh: retry"].
Proof.
  exact (proj2 (done_is_the_last_event _ _ _ _ 0%nat
                  [EvCmdOutput "5.4.0"; EvError "ssh: timeout"; EvError "ssh: retry"]
                  [] sample_run_reachable ltac:(vm_compute; reflexivity))).
Defined.

(** ** No record is lost or reordered *)

Lemma sent_by_snoc i t l :
  sent_by i (t ++ [l])%list
  = (sent_by i t ++ match l with
                    | LSend j o => if Nat.eqb i j then [o] else []
                    | _ => []
                    end)%list.
Proof.
  unfold sent_by. rewrite flat_map_app. simpl. rewrite app_nil_r. reflexivity.
Qed.

(** X5: in a run, the records a worker has sent, followed by the one it is
    about to send if it stands at the send, are exactly the records due for
    the events it received: one per line of command output, in the order
    received, each carrying that line.  The records passed to [job.Process],
    followed by the one the aggregator holds if any, are exactly the records
    sent, in the order sent; and once [job.Done()] has been called, every
    record sent has been processed. *)
Theorem no_record_lost
  (c : Context) (job : VMJob) (t : list Label) (s : State) :
  reachable c job t s ->
  (forall i w, nth_error (workers s) i = Some w ->
     (sent_by i t ++ in_flight (wpc w))%list
     = cmd_outputs (conf w) (worker_events i t)) /\
  sent t = (processed t ++ match agg s with AProcess o => [o] | _ => [] end)%list /\
  (job_done_calls t = 1%nat ->
   processed t = sent t /\
   forall i w, nth_error (workers s) i = Some w ->
     sent_by i t = cmd_outputs (conf w) (worker_events i t)).
Proof.
  intros Hr.
  destruct (reachable_invariant _ _ _ _ Hr) as [HI HT].
  assert (Hw : forall i w, nth_error (workers s) i = Some w ->
            (sent_by i t ++ in_flight (wpc w))%list
            = cmd_outputs (conf w) (worker_events i t)).
  { intros i w Hw.
    pose proof (reachable_worker_view _ _ _ _ Hr i) as Hv. rewrite Hw in Hv.
    rewrite <- sends_worker_loop, <- (sends_worker_actions i (conf w)).
    unfold worker_view in Hv.
    destruct (wpc w) eqn:Epc; simpl in_flight; destruct Hv as [Ha Hret];
      rewrite ?app_nil_r.
    - rewrite Ha, Hret. reflexivity.
    - rewrite Ha. reflexivity.
    - apply (f_equal sends) in Ha. rewrite sends_app in Ha. exact Ha.
    - rewrite Ha. reflexivity.
    - rewrite Ha.
      change (ARunVM (conf w) :: fst (worker_loop (conf w) (worker_events i t))
                ++ [ARelease])%list
        with ([ARunVM (conf w)] ++ fst (worker_loop (conf w) (worker_events i t))
                ++ [ARelease])%list.
      rewrite !sends_app. simpl. rewrite app_nil_r. reflexivity.
    - rewrite Ha. unfold worker.
      destruct (worker_loop (conf w) (worker_events i t)) as [la r]. simpl.
      change (ARunVM (conf w) :: la ++ (if r then [ARelease; AWgDone] else []))%list
        with ([ARunVM (conf w)] ++ la ++ (if r then [ARelease; AWgDone] else []))%list.
      rewrite !sends_app. destruct r; simpl; rewrite app_nil_r; reflexivity. }
  split; [exact Hw|]. split; [exact (tinv_sent _ _ HT)|].
  intros Hd.
  rewrite (tinv_job_done _ _ HT) in Hd.
  destruct (orch s) eqn:Eo; try discriminate.
  pose proof (inv_drained _ _ _ HI) as Id. rewrite Eo in Id.
  pose proof (inv_joined _ _ _ HI) as Ij. rewrite Eo in Ij. specialize (Ij eq_refl).
  split.
  - rewrite (tinv_sent _ _ HT), Id, app_nil_r. reflexivity.
  - intros i w Hi. rewrite <- (Hw i w Hi).
    pose proof (count_zero live _ _ _ Ij Hi) as Hl. unfold live in Hl.
    destruct (wpc w); try discriminate. simpl. rewrite app_nil_r. reflexivity.
Qed.

Lemma no_record_lost_witness :
  processed sample_run = sent sample_run /\
  sent_by 0 sample_run = [{| VM := "ubuntu"; Line := "5.4.0" |}].
Proof.
  destruct (no_record_lost _ _ _ _ sample_run_reachable) as (_ & _ & H).
  destruct (H ltac:(vm_compute; reflexivity)) as [H1 H2].
  split; [exact H1|].
  exact (H2 0%nat {| conf := mkConf (sample_context 2 "") sample_job 0 "ubuntu";
                     wpc := WExited |} ltac:(vm_compute; reflexivity)).
Defined.

(** ** The dispatch loop *)

Lemma range_confs_box_names (c : Context) (job : VMJob) (images : list string) :
  forall k, map BoxName (range_confs c job k images) = images.
Proof.
  induction images as [|x images IH]; intros k; simpl; [reflexivity|].
  rewrite IH. reflexivity.
Qed.

(** X6: in a run, the images of the workers started so far, in the order the
    workers were started, followed by the images the dispatch loop has still
    to go through, are the images of the job: the loop visits the images
    once, in order, and starts one worker for each.  Every worker has the
    provider, CPU count, memory size and command of the command line and
    the job; and once the loop is over there are as many workers as images. *)
Theorem dispatch_follows_the_images
  (c : Context) (job : VMJob) (t : list Label) (s : State) :
  reachable c job t s ->
  (map (fun w => BoxName (conf w)) (workers s) ++ pending (orch s))%list
  = Images job /\
  (forall i w, nth_error (workers s) i = Some w ->
     nth_error (Images job) i = Some (BoxName (conf w)) /\
     ProviderName (conf w) = GlobalString c "provider" /\
     CPUs (conf w) = GlobalInt c "cpus" /\
     Memory (conf w) = GlobalInt c "memory" /\
     Command (conf w) = Cmd job) /\
  (List.length (workers s) <= List.length (Images job))%nat /\
  (pending (orch s) = [] ->
   List.length (workers s) = List.length (Images job)).
Proof.
  intros Hr.
  destruct (reachable_invariant _ _ _ _ Hr) as [HI _].
  pose proof (inv_confs _ _ _ HI) as Hc.
  assert (Himg : (map (fun w => BoxName (conf w)) (workers s)
                    ++ pending (orch s))%list = Images job).
  { apply (f_equal (map BoxName)) in Hc.
    rewrite map_app, map_map, !range_confs_box_names in Hc. exact Hc. }
  split; [exact Himg|]. split; [|split].
  - intros i w Hw.
    destruct (reachable_worker_conf _ _ _ _ _ _ Hr Hw) as (image & Hi & ->).
    simpl. repeat split. exact Hi.
  - rewrite <- Himg, length_app, length_map. lia.
  - intros Hp. rewrite <- Himg, Hp, app_nil_r, length_map. reflexivity.
Qed.

Lemma dispatch_follows_the_images_witness :
  (map (fun w => BoxName (conf w)) (workers sample_contended_state)
     ++ pending (orch sample_contended_state))%list
  = ["ubuntu"; "fedora"; "ubuntu"].
Proof.
  exact (proj1 (dispatch_follows_the_images _ _ _ _ sample_contended_reachable)).
Defined.

(** ** Join before close *)

(** X7: in a run, the counter of [wg] is the number of workers that have not
    called [wg.Done()], plus one while the main goroutine is inside an
    iteration of the dispatch loop.  While any worker has not called
    [wg.Done()], the main goroutine has not passed [wg.Wait()], the result
    channel is open, the aggregator is in its loop and [job.Done()] has not
    been called; so a session that never reports [EvDone] keeps [runApp]
    from ever finishing.  Conversely, once the channel is closed every image
    has a worker and every worker has exited. *)
Theorem join_before_close
  (c : Context) (job : VMJob) (t : list Label) (s : State) :
  reachable c job t s ->
  wg s = count live (workers s) + in_iteration (orch s) /\
  (forall i w, nth_error (workers s) i = Some w -> live w = true ->
     dispatching (orch s) = true /\ closed s = false /\
     (agg s = ARange \/ exists o, agg s = AProcess o) /\
     job_done_calls t = O) /\
  (closed s = true ->
   List.length (workers s) = List.length (Images job) /\
   forall i w, nth_error (workers s) i = Some w -> wpc w = WExited).
Proof.
  intros Hr.
  destruct (reachable_invariant _ _ _ _ Hr) as [HI HT].
  destruct HI as [Ip Isz Icur Iw Iq Ib Iwg Icf Iix Ij Icl Irw Iac Idr].
  split; [exact Iwg|]. split.
  - intros i w Hw Hl.
    pose proof (count_member live _ _ _ Hw Hl) as Hc.
    assert (Hd : dispatching (orch s) = true).
    { destruct (dispatching (orch s)) eqn:E; [reflexivity|].
      specialize (Ij eq_refl). lia. }
    assert (Hcl : closed s = false).
    { rewrite Icl. destruct (orch s); simpl in Hd; try discriminate; reflexivity. }
    split; [exact Hd|]. split; [exact Hcl|]. split.
    + destruct (agg s); eauto; rewrite Hcl in Iac; discriminate.
    + rewrite (tinv_job_done _ _ HT).
      destruct (orch s); simpl in Hd; try discriminate; reflexivity.
  - intros Hcl. rewrite Icl in Hcl.
    assert (Hd : dispatching (orch s) = false /\ pending (orch s) = []).
    { destruct (orch s); try discriminate; split; reflexivity. }
    destruct Hd as [Hd Hp]. specialize (Ij Hd). split.
    + rewrite Hp in Icf. simpl in Icf. rewrite app_nil_r in Icf.
      apply (f_equal (@List.length _)) in Icf.
      rewrite length_map, range_confs_length in Icf. exact Icf.
    + intros i w Hw. pose proof (count_zero live _ _ _ Ij Hw) as Hl.
      unfold live in Hl. destruct (wpc w); try discriminate. reflexivity.
Qed.

Lemma join_before_close_witness :
  wg sample_contended_state
  = count live (workers sample_contended_state)
    + in_iteration (orch sample_contended_state).
Proof.
  exact (proj1 (join_before_close _ _ _ _ sample_contended_reachable)).
Defined.

(** ** A parallelism that lets nobody in *)

(** X8: [validateParameters] has no lower bound: a parallelism of zero or
    less is accepted whenever the per-VM CPU count is within the host's.
    With such a parallelism and at least one image, no worker is ever
    started, [job.Done()] is never called and [runApp] never returns: after
    [wg.Add(1)] and the call of [sm.Acquire] the main goroutine waits for a
    token that cannot come, and no goroutine has a step left. *)
Theorem nonpositive_parallelism_hangs
  (n : Z) (c : Context) (job : VMJob) (image : string) (rest : list string) :
  GlobalInt c "parallelism" <= 0 ->
  Images job = image :: rest ->
  (0 <= n -> GlobalInt c "cpus" <= n -> snd (validateParameters n c) = None) /\
  (forall t s, reachable c job t s ->
     workers s = [] /\ orch s <> OReturned /\ job_done_calls t = O) /\
  exists s,
    reachable c job [LWgAdd; LAcquire] s /\
    orch s = ODoomed 0 image rest /\
    forall l, step c job s l = None.
Proof.
  intros HP Himg. split; [|split].
  - intros Hn Hc.
    destruct (validateParameters_cases n c)
      as [(H & _)|[(_ & H & _)|[(_ & _ & _ & (m & E))|(_ & _ & _ & E)]]];
      try lia; rewrite E; reflexivity.
  - intros t s Hr.
    pose proof (no_worker_without_capacity _ _ _ HP _ Hr) as Hw.
    destruct (reachable_invariant _ _ _ _ Hr) as [HI HT].
    assert (Hno : orch s <> OReturned).
    { intros Ho. pose proof (inv_confs _ _ _ HI) as Hc.
      rewrite Hw, Ho, Himg in Hc. discriminate Hc. }
    split; [exact Hw|]. split; [exact Hno|].
    rewrite (tinv_job_done _ _ HT). destruct (orch s); congruence.
  - assert (HA : (1 <=? GlobalInt c "parallelism" - 0) = false)
      by (apply Z.leb_gt; lia).
    assert (HD : (GlobalInt c "parallelism" <? 1) = true)
      by (apply Z.ltb_lt; lia).
    eexists. split; [|split].
    + unfold reachable, exec, step, init. simpl. rewrite Himg.
      unfold Semaphore.Acquire. simpl. rewrite HA, HD. simpl. reflexivity.
    + reflexivity.
    + intros l. destruct l; try reflexivity; simpl;
        destruct i; reflexivity.
Qed.

Lemma nonpositive_parallelism_hangs_witness :
  exists s,
    reachable (sample_context 0 "") sample_job [LWgAdd; LAcquire] s /\
    orch s = ODoomed 0 "ubuntu" ["fedora"; "ubuntu"].
Proof.
  destruct (nonpositive_parallelism_hangs 4 (sample_context 0 "") sample_job
              "ubuntu" ["fedora"; "ubuntu"]
              ltac:(vm_compute; discriminate) eq_refl)
    as (_ & _ & s & Hr & Ho & _).
  exists s. split; [exact Hr | exact Ho].
Defined.

(** ** No deadlock with room for one worker *)

Lemma count_witness (p : Worker -> bool) (ws : list Worker) :
  1 <= count p ws -> exists i w, nth_error ws i = Some w /\ p w = true.
Proof.
  induction ws as [|x ws IH]; intros H.
  - rewrite count_nil in H. lia.
  - rewrite count_cons in H. destruct (p x) eqn:E.
    + exists O, x. split; [reflexivity | exact E].
    + simpl in H. destruct (IH ltac:(lia)) as (i & w & Hw & Hp).
      exists (S i), w. split; [exact Hw | exact Hp].
Qed.

Lemma doomed_without_capacity (c : Context) (job : VMJob) (t : list Label) :
  forall s i image rest,
    reachable c job t s -> orch s = ODoomed i image rest ->
    GlobalInt c "parallelism" < 1.
Proof.
  induction t as [|l t IH] using rev_ind; intros s i image rest Hr Ho.
  - unfold reachable in Hr. simpl in Hr. injection Hr as <-. discriminate Ho.
  - apply reachable_snoc in Hr as (s0 & Hr & Hs).
    destruct (reachable_invariant _ _ _ _ Hr) as [HI _].
    pose proof (Acquire_one_spec (sm s0)) as HA.
    pose proof (inv_size _ _ _ HI) as Hz.
    unfold step in Hs. rewrite (inv_panicked _ _ _ HI) in Hs.
    destruct l; break_step Hs; injection Hs as <-; simpl in Ho, HA;
      try discriminate Ho;
      try (exact (IH _ _ _ _ Hr Ho));
      try lia.
    all: destruct n; destruct (orch s0) eqn:Eo; simpl in Ho;
      try discriminate Ho; exact (IH _ _ _ _ Hr Eo).
Qed.

Lemma live_worker_can_step (c : Context) (job : VMJob) (s : State)
  (i : nat) (w : Worker) :
  Inv c job s ->
  nth_error (workers s) i = Some w -> live w = true ->
  exists l s', step c job s l = Some s' /\ advances l = true.
Proof.
  intros HI Hw Hl.
  destruct HI as [Ip Isz Icur Iw Iq Ib Iwg Icf Iix Ij Icl Irw Iac Idr].
  pose proof (count_member live _ _ _ Hw Hl) as Hc.
  assert (Hd : dispatching (orch s) = true).
  { destruct (dispatching (orch s)) eqn:E; [reflexivity|].
    specialize (Ij eq_refl). lia. }
  assert (Hcl : closed s = false).
  { rewrite Icl. destruct (orch s); simpl in Hd; try discriminate; reflexivity. }
  destruct w as [cf pc]. unfold live in Hl. simpl in Hl.
  destruct pc; try discriminate.
  - exists (LRunVM i). unfold step. rewrite Ip, Hw. eauto 6.
  - exists (LRecv i EvDone). unfold step. rewrite Ip, Hw. eauto 6.
  - destruct (agg s) eqn:Ea; rewrite ?Hcl in Iac; try discriminate.
    + exists (LSend i o). unfold step.
      rewrite Ip, Hw, VMOutput_eqb_refl, Hcl, Ea. simpl. eauto 6.
    + exists (LProcess res). unfold step.
      rewrite Ip, Ea, VMOutput_eqb_refl. eauto 6.
  - exists (LRelease i). unfold step. rewrite Ip, Hw.
    destruct (Semaphore.Release (sm s) 1) as [[x k]|]; eauto 6.
  - exists (LWgDone i). unfold step. rewrite Ip, Hw.
    destruct (wg s - 1 <? 0); eauto 6.
Qed.

(** With a parallelism of at least one, a run never deadlocks: in every
    reachable state in which [runApp] has not returned, some goroutine has a
    step, the receipt of [EvDone] being the step of a worker that waits in
    [select]. *)
Lemma progress_with_capacity
  (c : Context) (job : VMJob) (t : list Label) (s : State) :
  1 <= GlobalInt c "parallelism" ->
  reachable c job t s ->
  orch s <> OReturned ->
  exists l s', step c job s l = Some s' /\ advances l = true.
Proof.
  intros HP Hr Hno.
  destruct (reachable_invariant _ _ _ _ Hr) as [HI _].
  pose proof HI as [Ip Isz Icur Iw Iq Ib Iwg Icf Iix Ij Icl Irw Iac Idr].
  destruct (orch s) as [i [|image rest]|i image rest|i image rest|i image rest
                        |i image rest| | | |] eqn:Eo.
  - (* the loop is over: [wg.Wait()] *)
    destruct (Z.eqb_spec (wg s) 0) as [E|E].
    + exists LWgWait. unfold step. rewrite Ip, Eo.
      rewrite (proj2 (Z.eqb_eq _ _) E). eauto 6.
    + simpl in Iwg. pose proof (count_nonneg live (workers s)).
      destruct (count_witness live (workers s) ltac:(lia)) as (j & w & Hw & Hl).
      exact (live_worker_can_step _ _ _ _ _ HI Hw Hl).
  - exists LWgAdd. unfold step. rewrite Ip, Eo. eauto 6.
  - exists LAcquire. unfold step. rewrite Ip, Eo.
    destruct (Semaphore.Acquire (sm s) 1); eauto 6.
  - (* queued: every token is with a worker *)
    simpl in Icur. destruct Iq as [Hq1 Hq2].
    destruct (count_witness holds_token (workers s) ltac:(lia))
      as (j & w & Hw & Hh).
    apply (live_worker_can_step _ _ _ _ _ HI Hw).
    unfold holds_token in Hh. unfold live.
    destruct (wpc w); try discriminate; reflexivity.
  - pose proof (doomed_without_capacity _ _ _ _ _ _ _ Hr Eo). lia.
  - exists LGo. unfold step. rewrite Ip, Eo. eauto 6.
  - exists LClose. unfold step. rewrite Ip, Eo.
    destruct (closed s); eauto 6.
  - (* [resWg.Wait()] *)
    destruct (agg s) eqn:Ea.
    + exists LRangeEnd. unfold step. rewrite Ip, Ea, Icl. eauto 6.
    + exists (LProcess res). unfold step. rewrite Ip, Ea, VMOutput_eqb_refl. eauto 6.
    + exists LResWgDone. unfold step. rewrite Ip, Ea.
      destruct (resWg s - 1 <? 0); eauto 6.
    + exists LResWgWait. unfold step. rewrite Ip, Eo, Irw. simpl. eauto 6.
  - exists LJobDone. unfold step. rewrite Ip, Eo. eauto 6.
  - congruence.
Qed.

(** ** The parallelism is reached *)

Lemma start_one_exec (c : Context) (job : VMJob) (P : Z) (ws : list Worker)
  (image : string) (rest : list string) :
  Z.of_nat (List.length ws) + 1 <= P ->
  exec c job (started P ws (image :: rest)) start_one
  = Some (started P (ws ++ [{| conf := mkConf c job (List.length ws) image;
                                wpc := WRunVM |}])%list rest).
Proof.
  intros HP. unfold start_one, started.
  assert (HA : (1 <=? P - Z.of_nat (List.length ws)) = true)
    by (apply Z.leb_le; lia).
  unfold exec, step, Semaphore.Acquire. simpl. rewrite HA. simpl.
  rewrite length_app. simpl. rewrite Nat.add_1_r, Nat2Z.inj_succ.
  unfold set_orch, set_workers, set_sm, set_wg. simpl.
  repeat f_equal; lia.
Qed.

Lemma start_many_exec (c : Context) (job : VMJob) (P : Z) :
  forall k ws images,
    Z.of_nat (List.length ws + k) <= P ->
    (k <= List.length images)%nat ->
    exists ws',
      exec c job (started P ws images) (start_many k)
      = Some (started P ws' (skipn k images)) /\
      List.length ws' = (List.length ws + k)%nat.
Proof.
  induction k as [|k IH]; intros ws images HP Hk.
  - exists ws. split; [reflexivity | lia].
  - destruct images as [|image rest]; [simpl in Hk; lia|].
    cbn [start_many skipn]. simpl in Hk.
    destruct (IH (ws ++ [{| conf := mkConf c job (List.length ws) image;
                            wpc := WRunVM |}])%list rest)
      as (ws' & He & Hl).
    + rewrite length_app. simpl. lia.
    + lia.
    + exists ws'. rewrite exec_app, start_one_exec by lia.
      split; [exact He|]. rewrite Hl, length_app. simpl. lia.
Qed.

(** X10: the parallelism is not only a bound: for every [k] up to the
    parallelism and the number of images there is a run in which [k]
    workers hold a token at the same time; and with more images than
    tokens, the admission after the last token leaves the main goroutine in
    the queue of the semaphore with every token taken. *)
Theorem parallelism_is_reached (c : Context) (job : VMJob) (k : nat) :
  Z.of_nat k <= GlobalInt c "parallelism" ->
  (k <= List.length (Images job))%nat ->
  exists s,
    reachable c job (start_many k) s /\
    List.length (workers s) = k /\
    count holds_token (workers s) = Z.of_nat k /\
    Semaphore.cur (sm s) = Z.of_nat k /\
    (Z.of_nat k = GlobalInt c "parallelism" ->
     (1 <= k < List.length (Images job))%nat ->
     exists s' i image rest,
       reachable c job (start_many k ++ [LWgAdd; LAcquire])%list s' /\
       orch s' = OQueued i image rest /\
       workers s' = workers s /\
       Semaphore.cur (sm s') = GlobalInt c "parallelism").
Proof.
  intros HP Hk.
  destruct (start_many_exec c job (GlobalInt c "parallelism") k [] (Images job) HP Hk)
    as (ws & He & Hl).
  simpl in Hl.
  assert (Hr : reachable c job (start_many k)
                 (started (GlobalInt c "parallelism") ws (skipn k (Images job)))).
  { exact He. }
  exists (started (GlobalInt c "parallelism") ws (skipn k (Images job))).
  destruct (reachable_invariant _ _ _ _ Hr) as [HI _].
  pose proof (inv_cur _ _ _ HI) as Hc.
  cbn [started sm workers orch Semaphore.cur token_in_hand] in Hc.
  rewrite Hl, Z.add_0_r in Hc.
  split; [exact Hr|]. split; [exact Hl|].
  split; [symmetry; exact Hc|]. split; [simpl; rewrite Hl; reflexivity|].
  intros HkP Hlt.
  destruct (skipn k (Images job)) as [|image rest] eqn:Es.
  { apply (f_equal (@List.length _)) in Es. rewrite length_skipn in Es.
    simpl in Es. lia. }
  assert (HA : (1 <=? GlobalInt c "parallelism" - Z.of_nat (List.length ws)) = false)
    by (apply Z.leb_gt; lia).
  assert (HD : (GlobalInt c "parallelism" <? 1) = false)
    by (apply Z.ltb_ge; lia).
  eexists. exists (List.length ws), image, rest. split; [|split; [|split]].
  - unfold reachable. rewrite exec_app. unfold reachable in Hr. rewrite Hr.
    unfold exec, step, started, Semaphore.Acquire. simpl.
    rewrite HA, HD. simpl. reflexivity.
  - reflexivity.
  - reflexivity.
  - simpl. lia.
Qed.

Lemma parallelism_is_reached_witness :
  exists s,
    reachable (sample_context 2 "") sample_job (start_many 2) s /\
    count holds_token (workers s) = 2.
Proof.
  destruct (parallelism_is_reached (sample_context 2 "") sample_job 2
              ltac:(vm_compute; discriminate) ltac:(simpl; lia))
    as (s & Hr & _ & Hc & _).
  exists s. split; [exact Hr | exact Hc].
Defined.

(** ** The hand-over of a token *)

(** X11: while the main goroutine waits in the queue of the semaphore, every
    one of the [P] tokens is held by a worker; no step other than a release
    lets it leave the queue; and the first release by any worker hands the
    token straight to the main goroutine, which then starts the worker for
    the image it was waiting with, the count of the semaphore staying at
    [P]. *)
Theorem queued_dispatch_resumes_on_release
  (c : Context) (job : VMJob) (t : list Label) (s : State)
  (i : nat) (image : string) (rest : list string) :
  reachable c job t s ->
  orch s = OQueued i image rest ->
  1 <= GlobalInt c "parallelism" /\
  Semaphore.cur (sm s) = GlobalInt c "parallelism" /\
  count holds_token (workers s) = GlobalInt c "parallelism" /\
  forall l s', step c job s l = Some s' ->
    match l with
    | LRelease _ =>
        orch s' = OGo i image rest /\
        Semaphore.cur (sm s') = GlobalInt c "parallelism" /\
        count holds_token (workers s') = GlobalInt c "parallelism" - 1
    | _ => orch s' = OQueued i image rest
    end.
Proof.
  intros Hr Ho.
  destruct (reachable_invariant _ _ _ _ Hr) as [HI _].
  pose proof HI as [Ip Isz Icur Iw Iq Ib Iwg Icf Iix Ij Icl Irw Iac Idr].
  rewrite Ho in *. simpl in Icur. destruct Iq as [Hq1 Hq2].
  assert (Hcur : Semaphore.cur (sm s) = GlobalInt c "parallelism") by lia.
  split; [lia|]. split; [exact Hcur|]. split; [lia|].
  intros l s' Hs.
  pose proof (Inv_step _ _ _ _ _ HI Hs) as HI'.
  unfold step in Hs. rewrite Ip, ?Ho in Hs.
  destruct l; try discriminate;
    try (break_step Hs; injection Hs as <-; simpl; exact Ho).
  (* LRelease *)
  destruct (nth_error (workers s) i0) as [[cf pc]|] eqn:Ew; [|discriminate].
  destruct pc; try discriminate.
  destruct (Release_one_spec (sm s)) as [_ R1].
  rewrite R1 in Hs by (auto; lia). injection Hs as <-.
  simpl. split; [reflexivity|]. split; [exact Hcur|].
  unfold set_wpc. simpl. erewrite count_upd by exact Ew. simpl. lia.
Qed.

Lemma queued_dispatch_resumes_on_release_witness :
  Semaphore.cur (sm sample_contended_state) = 2.
Proof.
  exact (proj1 (proj2 (queued_dispatch_resumes_on_release _ _ _ _ _ _ _
                         sample_contended_reachable
                         (eq_refl : orch sample_contended_state
                                    = OQueued 2 "ubuntu" [])))).
Defined.

(** ** Every run can be completed *)

Lemma sum_upd (f : Worker -> nat) (g : Worker -> Worker) (ws : list Worker) :
  forall i w,
    nth_error ws i = Some w ->
    (list_sum (map f (upd i g ws)) + f w = list_sum (map f ws) + f (g w))%nat.
Proof.
  induction ws as [|x ws IH]; intros [|i] w H; simpl in H; try discriminate.
  - injection H as ->. simpl. lia.
  - simpl. specialize (IH i w H). lia.
Qed.

Lemma sum_snoc (f : Worker -> nat) (ws : list Worker) (x : Worker) :
  list_sum (map f (ws ++ [x])) = (list_sum (map f ws) + f x)%nat.
Proof.
  rewrite map_app, list_sum_app. simpl. lia.
Qed.

Lemma wake_fuel (k : nat) (o : OrchPC) : (orch_fuel (wake k o) <= orch_fuel o)%nat.
Proof.
  destruct k, o; simpl; lia.
Qed.

Lemma step_fuel (c : Context) (job : VMJob) (s s' : State) (l : Label) :
  Inv c job s -> step c job s l = Some s' -> advances l = true ->
  (fuel s' < fuel s)%nat.
Proof.
  intros HI Hs Hadv.
  pose proof (inv_panicked _ _ _ (Inv_step _ _ _ _ _ HI Hs)) as Hnp.
  unfold step in Hs. rewrite (inv_panicked _ _ _ HI) in Hs.
  unfold fuel.
  destruct l;
    try match goal with e : Event |- _ => destruct e; try discriminate Hadv end;
    break_step Hs; injection Hs as <-;
    try (simpl in Hnp; discriminate Hnp);
    unfold set_wpc; cbn [orch agg workers set_orch set_sm set_wg set_resWg
                         set_closed set_agg set_workers];
    rewrite ?sum_snoc;
    try match goal with
        | E : nth_error (workers s) ?i = Some ?w |- context [upd ?i ?g _] =>
            pose proof (sum_upd worker_fuel g (workers s) i w E) as Hsum
        end;
    try match goal with
        | |- context [wake ?k ?o] => pose proof (wake_fuel k o)
        end;
    unfold worker_fuel, orch_fuel, agg_fuel in *; simpl in *;
    try lia.
Qed.

Lemma reachable_step (c : Context) (job : VMJob) (t : list Label) (s s' : State)
  (l : Label) :
  reachable c job t s -> step c job s l = Some s' ->
  reachable c job (t ++ [l])%list s'.
Proof.
  unfold reachable. intros Hr Hs. rewrite exec_app, Hr. simpl. rewrite Hs.
  reflexivity.
Qed.

Lemma completion_within (c : Context) (job : VMJob) :
  1 <= GlobalInt c "parallelism" ->
  forall n t s,
    (fuel s <= n)%nat ->
    reachable c job t s ->
    exists t' s',
      reachable c job (t ++ t')%list s' /\ orch s' = OReturned /\
      forallb advances t' = true /\ (List.length t' <= n)%nat.
Proof.
  intros HP. induction n as [|n IH]; intros t s Hf Hr.
  - exists [], s. rewrite app_nil_r. split; [exact Hr|].
    split; [|split; [reflexivity | simpl; lia]].
    unfold fuel in Hf. destruct (orch s); simpl in Hf; try lia. reflexivity.
  - destruct (orch s) eqn:Eo.
    9: { exists [], s. rewrite app_nil_r.
         split; [exact Hr|]. split; [exact Eo|]. split; [reflexivity|simpl; lia]. }
    all: destruct (progress_with_capacity c job t s HP Hr ltac:(congruence))
           as (l & s1 & Hs & Hadv);
         destruct (reachable_invariant _ _ _ _ Hr) as [HI _];
         pose proof (step_fuel _ _ _ _ _ HI Hs Hadv) as Hlt;
         destruct (IH (t ++ [l])%list s1 ltac:(lia) (reachable_step _ _ _ _ _ _ Hr Hs))
           as (t' & s' & Hr' & Ho & Ha & Hlen);
         exists (l :: t'), s';
         rewrite <- app_assoc in Hr'; simpl in Hr';
         (split; [exact Hr'|]); (split; [exact Ho|]);
         (split; [simpl; rewrite Hadv, Ha; reflexivity | simpl; lia]).
Qed.

(** X9: with a parallelism of at least one, no reachable state is a dead
    end: whatever has happened so far, the run can be continued until
    [runApp] returns, having called [job.Done()] once, if from then on every
    session reports [EvDone] as its next event; the continuation takes at
    most [fuel] steps, and none when [runApp] has already returned. *)
Theorem every_run_can_be_completed
  (c : Context) (job : VMJob) (t : list Label) (s : State) :
  1 <= GlobalInt c "parallelism" ->
  reachable c job t s ->
  exists t' s',
    reachable c job (t ++ t')%list s' /\
    orch s' = OReturned /\
    job_done_calls (t ++ t')%list = 1%nat /\
    forallb advances t' = true /\
    (List.length t' <= fuel s)%nat /\
    (orch s <> OReturned -> t' <> []).
Proof.
  intros HP Hr.
  destruct (completion_within c job HP (fuel s) t s (Nat.le_refl _) Hr)
    as (t' & s' & Hr' & Ho & Ha & Hlen).
  exists t', s'. split; [exact Hr'|]. split; [exact Ho|].
  destruct (reachable_invariant _ _ _ _ Hr') as [_ HT].
  split; [rewrite (tinv_job_done _ _ HT), Ho; reflexivity|].
  split; [exact Ha|]. split; [exact Hlen|].
  intros Hno ->. rewrite app_nil_r in Hr'.
  unfold reachable in Hr, Hr'. rewrite Hr in Hr'. injection Hr' as ->.
  contradiction.
Qed.

Lemma every_run_can_be_completed_witness :
  exists t' s',
    reachable (sample_context 2 "") sample_job (sample_contended ++ t')%list s' /\
    orch s' = OReturned.
Proof.
  destruct (every_run_can_be_completed _ _ _ _
              (ltac:(vm_compute; discriminate)
                : 1 <= GlobalInt (sample_context 2 "") "parallelism")
              sample_contended_reachable)
    as (t' & s' & Hr & Ho & _).
  exists t', s'. split; [exact Hr | exact Ho].
Defined.

(** ** What a returned run has done *)

(** X12: when [runApp] has returned, every image of the job has had its
    worker, configured for that image and its index; the session of that
    worker reported [EvDone]; and what the worker did is the call of
    [RunVirtualMachine] with that configuration, then a log line (and a
    sent record for command output) per event in the order received, then
    the release of its token and [wg.Done()]. *)
Theorem returned_run_ran_every_image
  (c : Context) (job : VMJob) (t : list Label) (s : State)
  (i : nat) (image : string) :
  reachable c job t s ->
  orch s = OReturned ->
  nth_error (Images job) i = Some image ->
  exists w,
    nth_error (workers s) i = Some w /\
    conf w = mkConf c job i image /\
    wpc w = WExited /\
    In EvDone (worker_events i t) /\
    worker_actions i (conf w) t = fst (worker (conf w) (worker_events i t)) /\
    exists acts,
      worker_actions i (conf w) t
      = (ARunVM (conf w) :: acts ++ [ARelease; AWgDone])%list /\
      acts = fst (worker_loop (conf w) (worker_events i t)).
Proof.
  intros Hr Ho Hi.
  destruct (reachable_invariant _ _ _ _ Hr) as [HI _].
  pose proof (inv_confs _ _ _ HI) as Hc. rewrite Ho in Hc. simpl in Hc.
  rewrite app_nil_r in Hc.
  assert (Hlen : List.length (workers s) = List.length (Images job)).
  { apply (f_equal (@List.length _)) in Hc.
    rewrite length_map, range_confs_length in Hc. exact Hc. }
  destruct (nth_error (workers s) i) as [w|] eqn:Ew.
  2: { apply nth_error_None in Ew.
       assert (i < List.length (Images job))%nat
         by (apply nth_error_Some; congruence). lia. }
  exists w. split; [reflexivity|].
  destruct (reachable_worker_conf _ _ _ _ _ _ Hr Ew) as (image' & Hi' & Hcf).
  assert (image' = image) by congruence. subst image'.
  split; [exact Hcf|].
  pose proof (inv_joined _ _ _ HI) as Ij. rewrite Ho in Ij. specialize (Ij eq_refl).
  pose proof (count_zero live _ _ _ Ij Ew) as Hl.
  assert (Hpc : wpc w = WExited).
  { unfold live in Hl. destruct (wpc w); try discriminate. reflexivity. }
  split; [exact Hpc|].
  pose proof (reachable_worker_view _ _ _ _ Hr i) as Hv. rewrite Ew in Hv.
  unfold worker_view in Hv. rewrite Hpc in Hv. destruct Hv as [Ha Hret].
  unfold worker in Ha, Hret.
  destruct (worker_loop (conf w) (worker_events i t)) as [la r] eqn:El.
  simpl in Ha, Hret. subst r.
  split.
  { apply (worker_loop_returns_iff (conf w)). rewrite El. reflexivity. }
  split.
  { rewrite Ha. unfold worker. rewrite El. reflexivity. }
  exists la. split; [exact Ha | reflexivity].
Qed.

Lemma returned_run_ran_every_image_witness :
  exists w,
    nth_error (workers sample_final_state) 2 = Some w /\
    conf w = mkConf (sample_context 2 "") sample_job 2 "ubuntu".
Proof.
  destruct (returned_run_ran_every_image _ _ _ _ 2%nat "ubuntu"
              sample_run_reachable eq_refl eq_refl)
    as (w & Hw & Hc & _).
  exists w. split; [exact Hw | exact Hc].
Defined.

(** ** The order of the start-up *)

Lemma initLog_cases (OpenFile : string -> option string) (c : Context) (lg : Logger) :
  (exists lg1 e,
     initLog OpenFile c lg = ([COpenFile (GlobalString c "log-output")], lg1, Some e) /\
     GlobalString c "log.output" <> "") \/
  (exists opens lg',
     initLog OpenFile c lg = (opens, lg', None) /\
     (opens = [] \/
      (opens = [COpenFile (GlobalString c "log-output")] /\
       GlobalString c "log.output" <> ""))).
Proof.
  unfold initLog.
  destruct (0 <? String.length (GlobalString c "log.output"))%nat eqn:El.
  - assert (Hne : GlobalString c "log.output" <> "").
    { intros H. rewrite H in El. discriminate. }
    destruct (OpenFile (GlobalString c "log-output")) as [err|].
    + left. eexists; eexists. split; [reflexivity | exact Hne].
    + right. eexists; eexists. split; [reflexivity|]. right. split; [reflexivity | exact Hne].
  - right. eexists; eexists. split; [reflexivity|]. left. reflexivity.
Qed.

Lemma runApp_cases
  (n : Z) (OpenFile : string -> option string)
  (NewVMJob : Context -> VMJob + string) (c : Context) (lg : Logger) :
  (exists e, snd (validateParameters n c) = Some e /\
             runApp n OpenFile NewVMJob c lg = ([], Rejected e)) \/
  (snd (validateParameters n c) = None /\
   (fst (validateParameters n c) = [] \/
    exists msg, fst (validateParameters n c) = [CPrintf msg]) /\
   ((exists e, snd (initLog OpenFile c lg) = Some e /\
               GlobalString c "log.output" <> "" /\
               runApp n OpenFile NewVMJob c lg
               = ((fst (validateParameters n c)
                     ++ [COpenFile (GlobalString c "log-output")] ++ [])%list,
                  Rejected e)) \/
    (exists opens,
       snd (initLog OpenFile c lg) = None /\
       (opens = [] \/
        (opens = [COpenFile (GlobalString c "log-output")] /\
         GlobalString c "log.output" <> "")) /\
       runApp n OpenFile NewVMJob c lg
       = ((fst (validateParameters n c) ++ opens ++ [CNewVMJob])%list,
          match NewVMJob c with
          | inl job => Dispatching (snd (fst (initLog OpenFile c lg))) job
          | inr e => Fatal e
          end)))).
Proof.
  unfold runApp.
  destruct (validateParameters_cases n c)
    as [(_ & (e & E))|[(_ & _ & (e & E))|[(_ & _ & _ & (m & E))|(_ & _ & _ & E)]]];
    rewrite E; cbn [fst snd].
  1,2: left; exists e; split; reflexivity.
  all: right; split; [reflexivity|]; split; [eauto|].
  all: destruct (initLog_cases OpenFile c lg)
         as [(lg1 & e & Ei & Hne)|(opens & lg' & Ei & Hop)];
       rewrite Ei; cbn [fst snd].
  all: try (left; exists e; split; [reflexivity|]; split; [exact Hne | reflexivity]).
  all: right; exists opens; split; [reflexivity|]; split; [exact Hop|];
       destruct (NewVMJob c); reflexivity.
Qed.

(** X13: [runApp] prints at most the warning, then opens at most one file,
    then calls [NewVMJob] at most once, in this order.  It calls [NewVMJob]
    exactly when validation and log initialisation both succeeded; it opens
    a file only when validation succeeded and [log.output] is not empty; and
    it goes on to dispatch exactly when, in addition, [NewVMJob] yielded a
    job, which is then the job dispatched. *)
Theorem startup_order
  (n : Z) (OpenFile : string -> option string)
  (NewVMJob : Context -> VMJob + string) (c : Context) (lg : Logger) :
  (exists warn open build,
     fst (runApp n OpenFile NewVMJob c lg) = (warn ++ open ++ build)%list /\
     (warn = [] \/ exists msg, warn = [CPrintf msg]) /\
     (open = [] \/ open = [COpenFile (GlobalString c "log-output")]) /\
     (build = [] \/ build = [CNewVMJob])) /\
  (In CNewVMJob (fst (runApp n OpenFile NewVMJob c lg)) <->
   snd (validateParameters n c) = None /\ snd (initLog OpenFile c lg) = None) /\
  (In (COpenFile (GlobalString c "log-output"))
      (fst (runApp n OpenFile NewVMJob c lg)) ->
   snd (validateParameters n c) = None /\ GlobalString c "log.output" <> "") /\
  (forall lg' job,
     snd (runApp n OpenFile NewVMJob c lg) = Dispatching lg' job <->
     snd (validateParameters n c) = None /\
     snd (initLog OpenFile c lg) = None /\
     lg' = snd (fst (initLog OpenFile c lg)) /\
     NewVMJob c = inl job).
Proof.
  destruct (runApp_cases n OpenFile NewVMJob c lg)
    as [(e & Hv & ->)|(Hv & Hw & [(e & Hi & Hne & ->)|(opens & Hi & Hop & ->)])];
    cbn [fst snd].
  - split; [exists [], [], []; simpl; auto|].
    split; [split; [intros [] | intros [H _]; congruence]|].
    split; [intros []|].
    intros lg' job. split; [discriminate | intros [H _]; congruence].
  - split.
    { exists (fst (validateParameters n c)),
        [COpenFile (GlobalString c "log-output")], [].
      split; [reflexivity|]. auto. }
    split.
    { split; [|intros [_ H]; congruence].
      intros H. exfalso. apply in_app_or in H as [H|H].
      - destruct Hw as [Hw|(m & Hw)]; rewrite Hw in H; simpl in H;
          [contradiction | destruct H as [H|[]]; discriminate].
      - simpl in H. destruct H as [H|[]]. discriminate. }
    split; [intros _; split; [exact Hv | exact Hne]|].
    intros lg' job. split; [discriminate | intros (_ & H & _); congruence].
  - split.
    { exists (fst (validateParameters n c)), opens, [CNewVMJob].
      split; [reflexivity|]. split; [exact Hw|].
      split; [destruct Hop as [->|[-> _]]; auto | auto]. }
    split.
    { split; [intros _; split; [exact Hv | exact Hi]|].
      intros _. apply in_or_app. right. apply in_or_app. right. left. reflexivity. }
    split.
    { intros H. split; [exact Hv|].
      apply in_app_or in H as [H|H].
      - exfalso. destruct Hw as [Hw|(m & Hw)]; rewrite Hw in H; simpl in H;
          [contradiction | destruct H as [H|[]]; discriminate].
      - apply in_app_or in H as [H|H].
        + destruct Hop as [->|[_ Hne]]; [destruct H | exact Hne].
        + simpl in H. destruct H as [H|[]]. discriminate. }
    intros lg' job. split.
    + intros H. destruct (NewVMJob c) as [job0|e0]; [|discriminate].
      injection H as <- <-. repeat split; assumption.
    + intros (_ & _ & -> & ->). reflexivity.
Qed.

(** ** Initialising the log twice *)

(** X14: [initLog] is idempotent: run again on the logger it produced, it
    makes the same calls and yields the same logger and the same result.
    When it succeeds, the output and the level it sets do not depend on the
    logger it started from, and the level is debug unless the level named is
    exactly ["trace"] or ["info"]; the JSON formatter is on afterwards
    exactly when [log.json] is set or it was on before. *)
Theorem initLog_idempotent
  (OpenFile : string -> option string) (c : Context) (lg : Logger) :
  initLog OpenFile c (snd (fst (initLog OpenFile c lg))) = initLog OpenFile c lg /\
  (forall lg2,
     snd (initLog OpenFile c lg) = None ->
     snd (initLog OpenFile c lg2) = None /\
     output (snd (fst (initLog OpenFile c lg2)))
     = output (snd (fst (initLog OpenFile c lg))) /\
     level (snd (fst (initLog OpenFile c lg2)))
     = level (snd (fst (initLog OpenFile c lg)))) /\
  (snd (initLog OpenFile c lg) = None ->
   GlobalString c "log.level" <> "trace" ->
   GlobalString c "log.level" <> "info" ->
   level (snd (fst (initLog OpenFile c lg))) = DebugLevel) /\
  (formatter (snd (fst (initLog OpenFile c lg))) = JSONFormatter <->
   GlobalBool c "log.json" = true \/ formatter lg = JSONFormatter).
Proof.
  unfold initLog.
  destruct (GlobalBool c "log.json") eqn:Ej;
    destruct (0 <? String.length (GlobalString c "log.output"))%nat;
    try destruct (OpenFile (GlobalString c "log-output")) as [err|];
    cbn [fst snd].
  all: split;
    [ repeat match goal with
             | |- context [String.eqb ?a ?b] => destruct (String.eqb a b)
             end; reflexivity |].
  all: split;
    [ intros lg2 H; try discriminate H;
      repeat match goal with
             | |- context [String.eqb ?a ?b] => destruct (String.eqb a b)
             end; repeat split; reflexivity |].
  all: split;
    [ intros H Ht Hi;
      first
        [ discriminate H
        | destruct (String.eqb_spec (GlobalString c "log.level") "trace");
          [contradiction|];
          destruct (String.eqb (GlobalString c "log.level") "debug");
          [reflexivity|];
          destruct (String.eqb_spec (GlobalString c "log.level") "info");
          [contradiction | reflexivity] ] |].
  all: repeat match goal with
              | |- context [String.eqb ?a ?b] => destruct (String.eqb a b)
              end; simpl; split; intros H; auto;
         destruct H as [H|H]; try discriminate H; auto.
Qed.
